(** * mirror: verification of a directory tree against a file database

    A shallow embedding of [src/src/mirror/utils.hpp] (the tree walker
    [scanFiles], the verification engine [verifyDir] with its local
    [EventHandler], and [processFile]) and of the tail of [main] and of
    [VerifyDirMismatchHandler::checkFileMismatch] in [src/src/main.cpp]. *)

From Stdlib Require Import ZArith Lia.

From stdpp Require Import base list gmap sets strings.

From Equations Require Import Equations.

Open Scope Z_scope.

(** ** Data model (FileDB.hpp as used by utils.hpp and main.cpp) *)

Inductive FileType := file | directory.

#[global] Instance FileType_eq_dec : EqDecision FileType.
Proof. solve_decision. Defined.

#[global] Instance byte_eq_dec : EqDecision Byte.byte := Byte.byte_eq_dec.

(** [mirror::FileRecord]: the file size is a 64-bit unsigned integer, the
    timestamp is compared through [millis()], the MD5 digest is a 16-byte
    array compared with [std::equal]. *)
Record FileRecord := mkFileRecord {
  type : FileType;
  fileSize : Z;
  lastModifiedMillis : Z;
  md5Digest : list Byte.byte
}.

(** [mirror::DirFileMap]: the files recorded for one directory, keyed by
    their (UTF-8) name. *)
Abbreviation DirFileMap := (gmap string FileRecord).

(** [mirror::DirSet]: relative paths of the directories known to the DB. *)
Abbreviation DirSet := (gset string).

(** Modelled from the spec: the snapshot store [mirror::FileDB]
    (FileDB.hpp is outside the sources), seen through the two read
    queries [verifyDir] uses. *)
Record FileDB := mkFileDB {
  db_dirs : DirSet;
  db_files : gmap string DirFileMap
}.

(** Modelled from the spec: [FileDB::getDirs(dest)], the set of all
    known directory paths. *)
Definition getDirs (db : FileDB) : DirSet := db_dirs db.

(** Modelled from the spec: [FileDB::getFiles(relDir, size, dest)], the
    records of the children of exactly one directory; a directory without
    recorded files has an empty map. *)
Definition getFiles (db : FileDB) (relDir : string) : DirFileMap :=
  default ∅ (db_files db !! relDir).

(** ** Errors *)

Definition EIO : Z := 5.

Definition ENOTDIR : Z := 20.

(** Fatal errors: the exceptions thrown by [handleOpenFileError],
    [handleReadFileError], by [throw errno] in [scanFiles] and
    [processFile], and a failed [assert]. *)
Inductive Err :=
| OpenFailure (errno : Z)
| ReadFailure (errno : Z)
| DirOpenFailure (errno : Z)
| CloseFailure (errno : Z)
| AssertFailure.

(** ** A state and exception monad

    [M S A] threads the state [S] through the computation and keeps it
    when an exception is thrown, so that the effects done before the
    exception (open handles, log lines, ...) stay observable. *)

Definition M (S A : Type) : Type := S -> (Err + A) * S.

#[global] Instance M_ret {S} : MRet (M S) := fun A a s => (inr a, s).

#[global] Instance M_bind {S} : MBind (M S) := fun A B f m s =>
  match m s with
  | (inl e, s') => (inl e, s')
  | (inr a, s') => f a s'
  end.

Definition throw {S A} (e : Err) : M S A := fun s => (inl e, s).

Definition get {S} : M S S := fun s => (inr s, s).

Definition modify {S} (f : S -> S) : M S unit := fun s => (inr tt, f s).

(** [try { m } catch (...) { h }] *)
Definition catch {S A} (m : M S A) (h : Err -> M S A) : M S A := fun s =>
  match m s with
  | (inl e, s') => h e s'
  | r => r
  end.

(** Lift the outcome of a callee. *)
Definition liftE {S A} (r : Err + A) : M S A :=
  match r with inl e => throw e | inr a => mret a end.

Fixpoint mapM_ {S A} (f : A -> M S unit) (l : list A) : M S unit :=
  match l with
  | [] => mret tt
  | x :: l' => f x ;; mapM_ f l'
  end.

(** ** The live file system

    A directory as [readdir] lists it: each entry has a name and a kind
    ([d_type]).  A regular file carries the outcome of [fillFileRecord] on
    it (its metadata, or the fatal error raised while reading it); a
    directory carries the outcome of [opendir] on it. *)

Inductive DirOpen :=
| Opened              (* opendir succeeds *)
| NoAccess            (* opendir fails with EACCES *)
| OpenError (errno : Z). (* opendir fails with another errno *)

Inductive node :=
| Reg (fill : Err + FileRecord)      (* DT_REG *)
| Dir (acc : DirOpen) (cs : children) (* DT_DIR *)
| Other                              (* symlink, device, fifo, ... *)
with children :=
| CNil
| CCons (name : string) (n : node) (rest : children).

(** [innerRelDir] / [relativePath] in the source: [relDir + '/' + name],
    without the slash at the root ([relDir[0] == '\0']). *)
Definition joinRel (relDir name : string) : string :=
  if String.eqb relDir "" then name else relDir +:+ "/" +:+ name.

(** The [name[0] == '.'] test of [scanFiles] for [.] and [..]. *)
Definition is_dot_or_dotdot (name : string) : bool :=
  String.eqb name "." || String.eqb name "..".

(** ** The tree walker [mirror::_helper::scanFiles]

    The [EventHandler] template parameter is a type class over the state
    the handler owns. [file] receives the outcome of reading the file in
    place of the absolute path it would read. *)

Class EventHandler (S : Type) := {
  dirStart : string -> M S unit;
  dirEnd : string -> M S unit;
  fileEv : string -> string -> (Err + FileRecord) -> M S unit
}.

Section ScanFiles.

Context {S : Type} `{EventHandler S}.

Fixpoint scanFiles (relDir : string) (n : node) : M S unit :=
  match n with
  | Dir Opened cs =>
      dirStart relDir ;;
      scanEntries relDir cs ;;
      (* closedir(dir); *)
      dirEnd relDir
  | Dir NoAccess _ => mret tt            (* logDebug("No access ..."); return; *)
  | Dir (OpenError e) _ => throw (DirOpenFailure e)
  | Reg _ | Other => throw (DirOpenFailure ENOTDIR)
  end
(** The [readdir] loop. *)
with scanEntries (relDir : string) (cs : children) : M S unit :=
  match cs with
  | CNil => mret tt
  | CCons name n rest =>
      (match n with
       | Reg f => fileEv relDir name f
       | Dir _ _ =>
           if is_dot_or_dotdot name then mret tt
           else scanFiles (joinRel relDir name) n
       | Other => mret tt   (* logDebug("... neither a directory or a regular file ...") *)
       end) ;;
      scanEntries relDir rest
  end.

End ScanFiles.

(** ** The verification engine [mirror::verifyDir] *)

(** The messages [verifyDir] writes to the log. The directory and the
    name are the two parts the code joins into [relativePath]
    ([report_path]); [DirNotFound] is written with [logDebug], the others
    with [logError]. *)
Inductive Report :=
| NewFileFound (relDir name : string)
| FileNotFound (relDir name : string)
| SizeMismatch (relDir name : string) (dbSize fsSize : Z)
| TimestampMismatch (relDir name : string) (dbMillis fsMillis : Z)
| DigestMismatch (relDir name : string) (dbMD5 fsMD5 : list Byte.byte)
| DirNotFound (path : string).

Definition report_path (r : Report) : string :=
  match r with
  | NewFileFound d n | FileNotFound d n | SizeMismatch d n _ _
  | TimestampMismatch d n _ _ | DigestMismatch d n _ _ => joinRel d n
  | DirNotFound p => p
  end.

(** The calls a [MismatchHandler] (such as [VerifyDirMismatchHandler] of
    main.cpp) can receive. *)
Inductive HandlerEvent :=
| HFileNotFound (t : FileType) (path : string)
| HNewFileFound (t : FileType) (path : string)
| HCheckFileMismatch (path : string) (expected actual : FileRecord).

(** The state of a [verifyDir] run: the fields of its local
    [EventHandler] ([dbDirs], the stack [ctxs] with its top first, the
    database [dbRef]), the log, and the calls received by the
    [mismatchHandler] passed by reference. *)
Record VState := mkVState {
  dbDirs : DirSet;
  ctxs : list DirFileMap;
  dbRef : FileDB;
  log : list Report;
  handled : list HandlerEvent
}.

Definition set_dbDirs (d : DirSet) (s : VState) : VState :=
  mkVState d (ctxs s) (dbRef s) (log s) (handled s).

Definition set_ctxs (c : list DirFileMap) (s : VState) : VState :=
  mkVState (dbDirs s) c (dbRef s) (log s) (handled s).

Definition logR (r : Report) : M VState unit :=
  modify (fun s => mkVState (dbDirs s) (ctxs s) (dbRef s) (log s ++ [r]) (handled s)).

(** [ctxs.top()]; the walker calls [file] and [dirEnd] only between a
    [dirStart] and its [dirEnd], so the stack is never empty there. *)
Definition ctx_top (s : VState) : DirFileMap := default ∅ (head (ctxs s)).

(** [ctxs.top() = m] *)
Definition set_top (m : DirFileMap) (s : VState) : VState :=
  set_ctxs (m :: tail (ctxs s)) s.

(** [EventHandler::dirStart] *)
Definition v_dirStart (relDir : string) : M VState unit :=
  modify (fun s => set_dbDirs (dbDirs s ∖ {[ relDir ]}) s) ;;
  (* ctxs.emplace(); dbRef.getFiles(relDir, ctxs.top()); *)
  modify (fun s => set_ctxs (getFiles (dbRef s) relDir :: ctxs s) s).

(** [EventHandler::dirEnd] *)
Definition v_dirEnd (relDir : string) : M VState unit :=
  s ← get;
  mapM_ (fun e : string * FileRecord => logR (FileNotFound relDir e.1))
        (map_to_list (ctx_top s)) ;;
  (* ctxs.pop(); *)
  modify (fun s => set_ctxs (tail (ctxs s)) s).

(** [EventHandler::file]; [fill] is what [fillFileRecord] does on the
    file. *)
Definition v_file (relDir fileName : string) (fill : Err + FileRecord)
    : M VState unit :=
  s ← get;
  match ctx_top s !! fileName with
  | None => logR (NewFileFound relDir fileName)
  | Some expected =>
      actual ← liftE fill;
      (if negb (Z.eqb (fileSize expected) (fileSize actual)) then
         logR (SizeMismatch relDir fileName (fileSize expected) (fileSize actual))
       else mret tt) ;;
      (if negb (Z.eqb (lastModifiedMillis expected) (lastModifiedMillis actual)) then
         logR (TimestampMismatch relDir fileName
                 (lastModifiedMillis expected) (lastModifiedMillis actual))
       else mret tt) ;;
      (if negb (bool_decide (md5Digest actual = md5Digest expected)) then
         logR (DigestMismatch relDir fileName (md5Digest expected) (md5Digest actual))
       else mret tt) ;;
      (* ctxs.top().erase(dbEntry); *)
      modify (fun s => set_top (delete fileName (ctx_top s)) s)
  end.

#[global] Instance verifyHandler : EventHandler VState := {
  dirStart := v_dirStart;
  dirEnd := v_dirEnd;
  fileEv := v_file
}.

(** [mirror::verifyDir(rootDir, db, mismatchHandler)], run from the
    state in which its [EventHandler] is constructed. *)
Definition verifyDir (root : node) : M VState unit :=
  (* EventHandler(db): db.getDirs(dbDirs) *)
  modify (fun s => set_dbDirs (getDirs (dbRef s)) s) ;;
  scanFiles "" root ;;
  s ← get;
  mapM_ (fun missingDir => logR (DirNotFound missingDir)) (elements (dbDirs s)) ;;
  s ← get;
  if bool_decide (ctxs s = []) then mret tt else throw AssertFailure.

Definition init_state (db : FileDB) : VState := mkVState ∅ [] db [] [].

Definition run_verifyDir (db : FileDB) (root : node) : (Err + unit) * VState :=
  verifyDir root (init_state db).

(** ** Reading the walk: what a report is about, which directories the
    walker enters, which directories exist *)

Definition file_dir (r : Report) : option string :=
  match r with
  | NewFileFound d _ | FileNotFound d _ | SizeMismatch d _ _ _
  | TimestampMismatch d _ _ _ | DigestMismatch d _ _ _ => Some d
  | DirNotFound _ => None
  end.

Definition file_name (r : Report) : option string :=
  match r with
  | NewFileFound _ n | FileNotFound _ n | SizeMismatch _ n _ _
  | TimestampMismatch _ n _ _ | DigestMismatch _ n _ _ => Some n
  | DirNotFound _ => None
  end.

(** The relative paths on which the walker calls [dirStart]. *)
Fixpoint entered (relDir : string) (n : node) : list string :=
  match n with
  | Dir Opened cs => relDir :: entered_entries relDir cs
  | _ => []
  end
with entered_entries (relDir : string) (cs : children) : list string :=
  match cs with
  | CNil => []
  | CCons name n rest =>
      (match n with
       | Dir _ _ => if is_dot_or_dotdot name then [] else entered (joinRel relDir name) n
       | _ => []
       end) ++ entered_entries relDir rest
  end.

(** The relative paths of all the directories of the live tree, readable
    or not. *)
Fixpoint live_dirs (relDir : string) (n : node) : list string :=
  match n with
  | Dir _ cs => relDir :: live_dirs_entries relDir cs
  | _ => []
  end
with live_dirs_entries (relDir : string) (cs : children) : list string :=
  match cs with
  | CNil => []
  | CCons name n rest =>
      (match n with
       | Dir _ _ => if is_dot_or_dotdot name then [] else live_dirs (joinRel relDir name) n
       | _ => []
       end) ++ live_dirs_entries relDir rest
  end.

Fixpoint child_names (cs : children) : list string :=
  match cs with
  | CNil => []
  | CCons name _ rest => name :: child_names rest
  end.

(** Names of the regular files of a directory listing. *)
Fixpoint reg_names (cs : children) : list string :=
  match cs with
  | CNil => []
  | CCons name (Reg _) rest => name :: reg_names rest
  | CCons _ _ rest => reg_names rest
  end.

Fixpoint child_lookup (name : string) (cs : children) : option node :=
  match cs with
  | CNil => None
  | CCons n nd rest => if String.eqb n name then Some nd else child_lookup name rest
  end.

(** A listing as [readdir] returns it: names are non-empty and unique. *)
Definition wf_listing (cs : children) : Prop :=
  NoDup (child_names cs) /\ Forall (fun n => n <> "") (child_names cs).

(** The field reports [EventHandler::file] writes for a file found in the
    expectation. *)
Definition field_reports (relDir name : string) (expected actual : FileRecord)
    : list Report :=
  (if negb (Z.eqb (fileSize expected) (fileSize actual)) then
     [SizeMismatch relDir name (fileSize expected) (fileSize actual)] else []) ++
  (if negb (Z.eqb (lastModifiedMillis expected) (lastModifiedMillis actual)) then
     [TimestampMismatch relDir name (lastModifiedMillis expected) (lastModifiedMillis actual)]
   else []) ++
  (if negb (bool_decide (md5Digest actual = md5Digest expected)) then
     [DigestMismatch relDir name (md5Digest expected) (md5Digest actual)] else []).

Definition file_reports (relDir : string) (T : DirFileMap) (name : string)
    (fill : Err + FileRecord) : list Report :=
  match T !! name with
  | None => [NewFileFound relDir name]
  | Some e => match fill with inr a => field_reports relDir name e a | inl _ => [] end
  end.

(** The reports of a readdir loop about its own directory, given the
    expectation [T] the directory was entered with. *)
Fixpoint entry_reports (relDir : string) (T : DirFileMap) (cs : children) : list Report :=
  match cs with
  | CNil => []
  | CCons name (Reg f) rest => file_reports relDir T name f ++ entry_reports relDir T rest
  | CCons _ _ rest => entry_reports relDir T rest
  end.

Definition at_dir (d : string) (r : Report) : bool :=
  match file_dir r with Some d' => String.eqb d' d | None => false end.

(** [m] leaves the database and the mismatch handler as they are. *)
Definition frames {A} (m : M VState A) : Prop :=
  forall s, dbRef (snd (m s)) = dbRef s /\ handled (snd (m s)) = handled s.

Definition about (r n : string) (rep : Report) : bool :=
  match file_dir rep, file_name rep with
  | Some d, Some m => String.eqb d r && String.eqb m n
  | _, _ => false
  end.

Definition is_new_at (r : string) (rep : Report) : bool :=
  match rep with NewFileFound d _ => String.eqb d r | _ => false end.

Definition is_notfound_at (r : string) (rep : Report) : bool :=
  match rep with FileNotFound d _ => String.eqb d r | _ => false end.

Definition is_notfound_of (r n : string) (rep : Report) : bool :=
  match rep with FileNotFound d m => String.eqb d r && String.eqb m n | _ => false end.

Definition is_dirnotfound (p : string) (rep : Report) : bool :=
  match rep with DirNotFound q => String.eqb q p | _ => false end.

(** ** [VerifyDirMismatchHandler::checkFileMismatch] (main.cpp) *)

(** The lines it writes with [logError]. *)
Inductive CheckLine :=
| CTypeMismatch (path : string) (dbType fsType : FileType)
| CMismatchHeader (path : string)
| CSizeLine (dbSize fsSize : Z)
| CTimestampLine (dbMillis fsMillis : Z)
| CDigestLine (dbMD5 fsMD5 : list Byte.byte).

(** Returns [fullMatch] and the lines logged. *)
Definition checkFileMismatch (path : string) (expectedFileRecord actualFileRecord : FileRecord)
    : bool * list CheckLine :=
  if bool_decide (type expectedFileRecord <> type actualFileRecord) then
    (false, [CTypeMismatch path (type expectedFileRecord) (type actualFileRecord)])
  else if bool_decide (type actualFileRecord = file) then
    let sizeMismatch := negb (Z.eqb (fileSize expectedFileRecord) (fileSize actualFileRecord)) in
    let lastModMismatch :=
      negb (Z.eqb (lastModifiedMillis expectedFileRecord) (lastModifiedMillis actualFileRecord)) in
    let digestMismatch :=
      negb (bool_decide (md5Digest actualFileRecord = md5Digest expectedFileRecord)) in
    let fullMatch := negb sizeMismatch && negb lastModMismatch && negb digestMismatch in
    (fullMatch,
     if negb fullMatch then
       [CMismatchHeader path] ++
       (if sizeMismatch then
          [CSizeLine (fileSize expectedFileRecord) (fileSize actualFileRecord)] else []) ++
       (if lastModMismatch then
          [CTimestampLine (lastModifiedMillis expectedFileRecord)
                          (lastModifiedMillis actualFileRecord)] else []) ++
       (if digestMismatch then
          [CDigestLine (md5Digest expectedFileRecord) (md5Digest actualFileRecord)] else [])
     else [])
  else (true, []).

(** ** Reading a file: [mirror::_helper::openFile] and [processFile] *)

(** An open [FILE] as [fread] sees it: the bytes not yet read and,
    when the device fails, the offset (from the current position) of the
    first byte it cannot deliver. *)
Record CFile := mkCFile {
  remaining : list Byte.byte;
  fail_at : option nat
}.

(** The next [fread(buf, 1, 4096, f)] stops at the failing byte. *)
Definition read_fails (f : CFile) : bool :=
  match fail_at f with
  | Some k => (k <? 4096)%nat && (k <? length (remaining f))%nat
  | None => false
  end.

(** [fread(buf, 1, 4096, f)]: the bytes read, the [feof] flag after the
    call, and the stream after it. A short read either hits the end of
    the file ([feof] set) or the failing byte ([ferror] set, [feof] not). *)
Definition fread (f : CFile) : list Byte.byte * bool * CFile :=
  if read_fails f then
    (take (default 0%nat (fail_at f)) (remaining f), false, f)
  else if (4096 <=? length (remaining f))%nat then
    (take 4096 (remaining f), false,
     mkCFile (drop 4096 (remaining f)) (option_map (fun k => k - 4096)%nat (fail_at f)))
  else (remaining f, true, mkCFile [] None).

(** Modelled from the spec: [handleReadFileError] is declared in
    utils.hpp and defined outside the sources; it raises the fatal
    [ReadFailure] carrying the [errno] of the failed read. *)
Definition handleReadFileError (errno : Z) : Err := ReadFailure errno.

(** Modelled from the spec: [handleOpenFileError] is declared in
    utils.hpp and defined outside the sources; it raises the fatal
    [OpenFailure] carrying the [errno] of [fopen]. *)
Definition handleOpenFileError (errno : Z) : Err := OpenFailure errno.

Definition inspect {B} (b : B) : {c | b = c} := exist _ b eq_refl.

Section ProcessFile.

Context {A : Type} (chunkOp : A -> list Byte.byte -> Err + A).

(** The [for (;;)] loop inside the [try] of [processFile]: [chunkOp]
    updates the accumulator [A] it owns (the MD5 context of
    [fillFileRecord]) and may throw. *)
Equations? readLoop (f : CFile) (acc : A) : Err + A by wf (length (remaining f)) lt :=
  readLoop f acc with inspect (fread f) := {
    | exist _ (buf, eof, f') H with inspect (Nat.eqb (length buf) 4096) := {
      | exist _ true E =>
          (* n == 4096: chunkOp(buf, n); *)
          match chunkOp acc buf with
          | inl e => inl e
          | inr acc' => readLoop f' acc'
          end
      | exist _ false _ =>
          (* feof(f): chunkOp(buf, n); break;  else handleReadFileError(errno); *)
          if eof then chunkOp acc buf else inl (handleReadFileError EIO) } }.
Proof.
  apply Nat.eqb_eq in E.
  unfold fread, read_fails in H.
  destruct f as [d [k|]]; cbn [remaining fail_at option_map default] in *.
  - destruct ((k <? 4096)%nat && (k <? length d)%nat) eqn:Hc.
    + injection H as <- _ _. apply andb_true_iff in Hc as [H1 _].
      apply Nat.ltb_lt in H1. rewrite length_take in E. lia.
    + destruct (4096 <=? length d)%nat eqn:Hl.
      * injection H as _ _ <-. cbn. rewrite length_drop. apply Nat.leb_le in Hl. lia.
      * injection H as <- _ _. apply Nat.leb_gt in Hl. lia.
  - destruct (4096 <=? length d)%nat eqn:Hl.
    + injection H as _ _ <-. cbn. rewrite length_drop. apply Nat.leb_le in Hl. lia.
    + injection H as <- _ _. apply Nat.leb_gt in Hl. lia.
Qed.

End ProcessFile.

(** The process-wide resources [processFile] touches: the number of open
    [FILE] streams, and the [logError] lines written when [fclose] fails
    on the exception path. *)
Record PState := mkPState {
  openFiles : Z;
  closeErrorsLogged : nat
}.

(** [openFile]: [fopen] either yields a stream or fails with [errno]. *)
Definition openFile (fopenResult : Z + CFile) : M PState CFile :=
  match fopenResult with
  | inl errno => throw (handleOpenFileError errno)
  | inr f => modify (fun s => mkPState (openFiles s + 1) (closeErrorsLogged s)) ;; mret f
  end.

(** [fclose(f)]: the stream is released whether or not the call
    succeeds (C11 7.21.5.1); [fcloseResult] is [Some errno] when it
    returns [EOF]. *)
Definition fclose (fcloseResult : option Z) : M PState (option Z) :=
  modify (fun s => mkPState (openFiles s - 1) (closeErrorsLogged s)) ;; mret fcloseResult.

Section ProcessFile2.

Context {A : Type} (chunkOp : A -> list Byte.byte -> Err + A).

(** [processFile(path, chunkOp)]; it returns the final accumulator. *)
Definition processFile (fopenResult : Z + CFile) (fcloseResult : option Z) (acc0 : A)
    : M PState A :=
  f ← openFile fopenResult;
  acc ← catch (liftE (readLoop chunkOp f acc0))
          (fun e =>
             (* catch (...) { if (fclose(f) != 0) logError(...); throw; } *)
             r ← fclose fcloseResult;
             (match r with
              | Some _ => modify (fun s => mkPState (openFiles s) (S (closeErrorsLogged s)))
              | None => mret tt
              end) ;;
             throw e);
  r ← fclose fcloseResult;
  match r with
  | Some errno => throw (CloseFailure errno)   (* throw errno; *)
  | None => mret acc
  end.

End ProcessFile2.

(** A short read that is not the end of the file happens while reading
    [f] to its end. *)
Definition short_read_error (f : CFile) : Prop :=
  exists k, fail_at f = Some k /\ (k < length (remaining f))%nat.

(** What the read loop computes with a [chunkOp] that never throws
    ([upd], the MD5 update). *)
Definition chunk_post {A} (upd : A -> list Byte.byte -> A) (f : CFile) (acc0 : A)
    (r : Err + A) : Prop :=
  match r with
  | inl e => e = ReadFailure EIO /\ short_read_error f
  | inr acc =>
      ~ short_read_error f /\
      exists (C : list (list Byte.byte)) (lst : list Byte.byte),
        concat (C ++ [lst]) = remaining f /\
        Forall (fun c => length c = 4096%nat) C /\ (length lst < 4096)%nat /\
        acc = upd (fold_left upd C acc0) lst
  end.

(** ** The tail of [main] (main.cpp) *)

Module tool.

Inductive t := undefined | createDB | verifyDir | mergeDir.

End tool.

(** What a C++ [throw] carries out of [main]'s [try]: a [std::exception],
    a [const char *], or the [int] of [throw errno]. *)
Inductive Exn :=
| ExStd (what : string)
| ExCStr (msg : string)
| ExInt (code : Z).

(** A call that does not return: an exception, or [abort()] from a
    failed [assert]. *)
Inductive Raised :=
| Raise (e : Exn)
| Abort.

Inductive Outcome :=
| ExitStatus (status : Z)
| Terminated.   (* abort(), or std::terminate on an uncaught exception *)

(** Modelled from the spec: the outcome of [db.close()]; [FileDB] is
    outside the sources, and a store close failure is fatal: [Some e] when
    [close] throws [e], [None] when it returns. *)
Definition CloseOutcome : Type := option Exn.

(** From [try { switch (t) ... }] to the end of [main], after
    [FileDB::open] succeeded: [createRun] and [verifyRun] are the outcomes
    of [mirror::createDB] and [mirror::verifyDir]; [dbClose] is the
    outcome of [db.close()]. *)
Definition main_tail (t : tool.t) (createRun verifyRun : Raised + unit)
    (dbClose : CloseOutcome) : Outcome :=
  let body : Raised + unit :=
    match t with
    | tool.createDB => createRun
    | tool.verifyDir => verifyRun
    | _ => inl Abort                  (* assert(false); *)
    end in
  let r : Raised + Z :=
    match body with
    | inl Abort => inl Abort
    | inl (Raise e) =>                (* catch (...) { db.close(); throw; } *)
        match dbClose with Some e' => inl (Raise e') | None => inl (Raise e) end
    | inr _ =>                        (* db.close(); return 0; *)
        match dbClose with Some e' => inl (Raise e') | None => inr 0 end
    end in
  match r with
  | inr status => ExitStatus status
  | inl (Raise (ExStd _)) => ExitStatus 1     (* catch (std::exception &ex) *)
  | inl (Raise (ExCStr _)) => ExitStatus 1    (* catch (const char * const ex) *)
  | inl _ => Terminated
  end.


(** ** The option loop and checks of [main] (main.cpp) *)

(** What [getopt_long(argc, argv, "h", options, &optionIndex)] returns at
    each call of the loop of [main], with [::optarg] for the options that
    take an argument. *)
Inductive GetoptResult :=
| GoDb (optarg : string)     (* 'd': --db *)
| GoHelp                     (* 'h': --help, -h *)
| GoTool (optarg : string)   (* 't': --tool *)
| GoVersion                  (* 'v': --version *)
| GoUnknown                  (* '?' *)
| GoOther (c : Z).           (* any other value *)

(** The locals of [main] the option loop sets. *)
Record MainOpts := mkMainOpts {
  opt_t : tool.t;
  toolDefined : bool;
  dbPath : string;
  dbDefined : bool
}.

(** Their initial values; [dbPath] is left uninitialised by the source
    and is not read before [dbDefined] is set. *)
Definition main_opts0 : MainOpts := mkMainOpts tool.undefined false "" false.

(** The [while (getopt_long(...) != -1)] loop: [inl status] is a
    [return status] from inside the loop. *)
Fixpoint parseOptions (rs : list GetoptResult) (o : MainOpts) : Z + MainOpts :=
  match rs with
  | [] => inr o
  | r :: rs' =>
      match r with
      | GoDb p => parseOptions rs' (mkMainOpts (opt_t o) (toolDefined o) p true)
      | GoHelp => inl 0                (* printUsage(true); return 0; *)
      | GoTool a =>
          if String.eqb a "create-db" then
            parseOptions rs' (mkMainOpts tool.createDB true (dbPath o) (dbDefined o))
          else if String.eqb a "verify-dir" then
            parseOptions rs' (mkMainOpts tool.verifyDir true (dbPath o) (dbDefined o))
          else if String.eqb a "merge-dir" then
            parseOptions rs' (mkMainOpts tool.mergeDir true (dbPath o) (dbDefined o))
          else inl 1                   (* printUsage(false, ...); return 1; *)
      | GoVersion => inl 0             (* printVersion(); return 0; *)
      | GoUnknown => inl 1
      | GoOther _ => inl 1
      end
  end.

(** Modelled from the spec: the outcome of [FileDB::open(dbPath, true)];
    [FileDB] is outside the sources, and a store open failure is fatal:
    [Some e] when [open] throws [e]. *)
Definition OpenOutcome : Type := option Exn.

(** The two handlers of the function-try-block of [main]. *)
Definition main_catch (e : Exn) : Outcome :=
  match e with
  | ExStd _ => ExitStatus 1      (* catch (std::exception &ex) *)
  | ExCStr _ => ExitStatus 1     (* catch (const char * const ex) *)
  | ExInt _ => Terminated
  end.

(** [main] after [setlocale] and [initConverters]: [rs] are the results
    of [getopt_long], [optind] its index of the first operand. *)
Definition main_run (rs : list GetoptResult) (optind argc : Z) (dbOpen : OpenOutcome)
    (createRun verifyRun : Raised + unit) (dbClose : CloseOutcome) : Outcome :=
  match parseOptions rs main_opts0 with
  | inl status => ExitStatus status
  | inr o =>
      if Z.eqb optind argc then ExitStatus 1                  (* No SOURCE *)
      else if Z.ltb optind (argc - 2) then ExitStatus 1       (* Only SOURCE and DEST *)
      else if (match opt_t o with tool.mergeDir => true | _ => false end)
              && Z.ltb optind (argc - 1) then ExitStatus 1     (* merge-dir needs DEST *)
      else if negb (toolDefined o) then ExitStatus 1           (* No tool specified *)
      else if negb (dbDefined o) then ExitStatus 1             (* No DB specified *)
      else match dbOpen with
           | Some e => main_catch e
           | None => main_tail (opt_t o) createRun verifyRun dbClose
           end
  end.

(** Options after which the loop goes on: a [--db] or a known tool name. *)
Definition continues (r : GetoptResult) : bool :=
  match r with
  | GoDb _ => true
  | GoTool a => String.eqb a "create-db" || String.eqb a "verify-dir" || String.eqb a "merge-dir"
  | _ => false
  end.

(** ** Examples *)

Definition rec_db : FileRecord := mkFileRecord file 10 1500000000000 [Byte.x01; Byte.x02].

Definition rec_fs : FileRecord := mkFileRecord file 12 1500000000000 [Byte.x07; Byte.x08].

(** The database after a snapshot of [root/a.txt]. *)
Definition db_a : FileDB := mkFileDB {[ "" ]} {[ "" := {[ "a.txt" := rec_db ]} ]}.

(** The live [root/a.txt] grew from 10 to 12 bytes with other content. *)
Definition listing_a : children := CCons "a.txt" (Reg (inr rec_fs)) CNil.

Definition state_a : VState := set_dbDirs (getDirs db_a) (init_state db_a).

(** The live root holds only a subdirectory [sub], which the database
    also knows; the root's expectation is empty. *)
Definition db_sub : FileDB := mkFileDB {[ ""; "sub" ]} ∅.

Definition listing_sub : children := CCons "sub" (Dir Opened CNil) CNil.

Definition state_sub : VState := set_dbDirs (getDirs db_sub) (init_state db_sub).

(** The database knows [a] (with a file [f]) and its subdirectory [a/b];
    the live root is empty: [a] has been removed. *)
Definition db_ab : FileDB :=
  mkFileDB {[ ""; "a"; "a/b" ]} {[ "a" := {[ "f" := rec_db ]} ]}.

Definition root_empty : node := Dir Opened CNil.

(** The live root holds a directory [a] that cannot be opened (EACCES). *)
Definition db_noacc : FileDB := mkFileDB {[ ""; "a" ]} ∅.

Definition root_noacc : node := Dir Opened (CCons "a" (Dir NoAccess CNil) CNil).

(** The database recorded [x] in the root as a directory; [x] is now a
    regular file. *)
Definition rec_dir : FileRecord := mkFileRecord directory 0 0 [].

Definition db_kind : FileDB := mkFileDB {[ "" ]} {[ "" := {[ "x" := rec_dir ]} ]}.

Definition root_kind : node := Dir Opened (CCons "x" (Reg (inr rec_fs)) CNil).

(** The database recorded [root/a.txt] exactly as it is now. *)
Definition db_exact : FileDB := mkFileDB {[ "" ]} {[ "" := {[ "a.txt" := rec_fs ]} ]}.

Definition state_exact : VState := set_dbDirs (getDirs db_exact) (init_state db_exact).

(** ** The monad's equations *)

Scheme node_mut := Induction for node Sort Prop
with children_mut := Induction for children Sort Prop.

Lemma bind_ok {S A B} (m : M S A) (f : A -> M S B) s b s' :
  (m ≫= f) s = (inr b, s') -> exists a s1, m s = (inr a, s1) /\ f a s1 = (inr b, s').
Proof.
  unfold mbind, M_bind. destruct (m s) as [[e|a] s1]; [discriminate | eauto].
Qed.

Lemma bind_step {S A B} (m : M S A) (f : A -> M S B) s a s1 :
  m s = (inr a, s1) -> (m ≫= f) s = f a s1.
Proof. unfold mbind, M_bind. intros ->. reflexivity. Qed.

Ltac inv_bind H :=
  let a := fresh "a" in let s1 := fresh "s" in
  let H1 := fresh "Hm" in let H2 := fresh "Hk" in
  apply bind_ok in H as (a & s1 & H1 & H2).

Lemma mapM_logR {A} (g : A -> Report) (l : list A) s :
  mapM_ (fun x => logR (g x)) l s =
  (inr tt, mkVState (dbDirs s) (ctxs s) (dbRef s) (log s ++ map g l) (handled s)).
Proof.
  revert s. induction l as [|x l IH]; intros s; simpl.
  - destruct s; simpl. rewrite app_nil_r. reflexivity.
  - unfold mbind, M_bind. cbn. rewrite IH. cbn. rewrite <- app_assoc. reflexivity.
Qed.

Lemma scanFiles_Opened {S} `{EventHandler S} r cs :
  scanFiles r (Dir Opened cs) = (dirStart r ;; scanEntries r cs ;; dirEnd r).
Proof. reflexivity. Qed.

Lemma scanEntries_cons {S} `{EventHandler S} r name n rest :
  scanEntries r (CCons name n rest) =
  ((match n with
    | Reg f => fileEv r name f
    | Dir _ _ => if is_dot_or_dotdot name then mret tt else scanFiles (joinRel r name) n
    | Other => mret tt
    end) ;; scanEntries r rest).
Proof. reflexivity. Qed.

Lemma v_dirStart_eq r s :
  v_dirStart r s =
  (inr tt, mkVState (dbDirs s ∖ {[ r ]}) (getFiles (dbRef s) r :: ctxs s)
                    (dbRef s) (log s) (handled s)).
Proof. reflexivity. Qed.

Lemma v_dirEnd_eq r s T rest :
  ctxs s = T :: rest ->
  v_dirEnd r s =
  (inr tt, mkVState (dbDirs s) rest (dbRef s)
                    (log s ++ map (fun kv : string * FileRecord => FileNotFound r kv.1)
                                  (map_to_list T)) (handled s)).
Proof.
  intros Hc. unfold v_dirEnd. cbn [get mbind M_bind].
  unfold mbind, M_bind. unfold get.
  rewrite (mapM_logR (fun kv : string * FileRecord => FileNotFound r kv.1)).
  unfold ctx_top. rewrite Hc. cbn. reflexivity.
Qed.

Lemma v_file_ok r n f s s' T rest :
  ctxs s = T :: rest ->
  v_file r n f s = (inr tt, s') ->
  s' = mkVState (dbDirs s) (delete n T :: rest) (dbRef s)
                (log s ++ file_reports r T n f) (handled s).
Proof.
  intros Hc H. unfold v_file in H. unfold mbind, M_bind, get in H.
  unfold ctx_top in H. rewrite Hc in H. cbn in H.
  unfold file_reports. destruct (T !! n) as [e|] eqn:HT.
  - destruct f as [err|a]; cbn in H; [discriminate|].
    unfold field_reports.
    destruct (negb (fileSize e =? fileSize a)%Z);
    destruct (negb (lastModifiedMillis e =? lastModifiedMillis a)%Z);
    destruct (negb (bool_decide (md5Digest a = md5Digest e)));
    cbn in H; injection H as <-; unfold set_top, set_ctxs, ctx_top; cbn;
    rewrite Hc; cbn; repeat rewrite <- app_assoc; rewrite ?app_nil_r; reflexivity.
  - cbn in H. injection H as <-. rewrite delete_id by exact HT.
    rewrite <- Hc. destruct s; reflexivity.
Qed.

Lemma file_reports_dir r T name f :
  Forall (fun rep => file_dir rep = Some r) (file_reports r T name f).
Proof.
  unfold file_reports, field_reports.
  destruct (T !! name); [destruct f|]; repeat constructor.
  repeat apply Forall_app_2;
    repeat match goal with |- context [if ?b then _ else _] => destruct b end;
    repeat constructor.
Qed.

Combined Scheme node_children_mut from node_mut, children_mut.

(** One step of the walk, as seen from outside: the stack is restored,
    the DB is untouched, [dbDirs] loses the entered directories, and the
    log grows by reports about entered directories only. *)
Lemma scan_ok :
  (forall n r s s', scanFiles r n s = (inr tt, s') ->
     ctxs s' = ctxs s /\ dbDirs s' = dbDirs s ∖ list_to_set (entered r n) /\
     dbRef s' = dbRef s /\ handled s' = handled s /\
     exists out, log s' = log s ++ out /\
       Forall (fun rep => exists d, file_dir rep = Some d /\ d ∈ entered r n) out) /\
  (forall cs r s s', scanEntries r cs s = (inr tt, s') ->
     forall T rest, ctxs s = T :: rest ->
     (exists T', ctxs s' = T' :: rest) /\
     dbDirs s' = dbDirs s ∖ list_to_set (entered_entries r cs) /\
     dbRef s' = dbRef s /\ handled s' = handled s /\
     exists out, log s' = log s ++ out /\
       Forall (fun rep => exists d, file_dir rep = Some d /\
                 (d = r \/ d ∈ entered_entries r cs)) out).
Proof.
  apply node_children_mut.
  - (* Reg *) intros f r s s' H. discriminate H.
  - (* Dir *) intros acc cs IH r s s' H. destruct acc as [| |e].
    + rewrite scanFiles_Opened in H. inv_bind H.
      change (v_dirStart r s = (inr a, s0)) in Hm.
      rewrite v_dirStart_eq in Hm. injection Hm as <- <-.
      apply bind_ok in Hk as ([] & s2 & Hm2 & Hk2).
      destruct (IH r _ _ Hm2 _ _ eq_refl) as ([T' HT'] & Hd & Hr & Hh & out & Hl & Hf).
      change (v_dirEnd r s2 = (inr tt, s')) in Hk2.
      rewrite (v_dirEnd_eq _ _ _ _ HT') in Hk2. injection Hk2 as <-. cbn in *.
      rewrite Hd, Hr, Hh, Hl. cbn.
      split; [reflexivity|]. split; [set_solver|]. split; [reflexivity|].
      split; [reflexivity|].
      eexists; split; [rewrite <- app_assoc; reflexivity|].
      apply Forall_app_2.
      * eapply Forall_impl; [exact Hf|]. intros rep (d & Hd1 & Hor).
        exists d; split; [exact Hd1|]. destruct Hor as [-> | Hin]; set_solver.
      * apply Forall_forall. intros rep Hin. apply list_elem_of_In in Hin.
        apply in_map_iff in Hin as (kv & <- & _). exists r. split; [reflexivity|].
        set_solver.
    + cbn in H. injection H as <-. simpl. repeat split; [set_solver|].
      exists []. split; [symmetry; apply app_nil_r | constructor].
    + cbn in H. discriminate H.
  - (* Other *) intros r s s' H. discriminate H.
  - (* CNil *) intros r s s' H T rest Hc. injection H as <-.
    split; [eauto|]. simpl. repeat split; [set_solver|].
    exists []. split; [symmetry; apply app_nil_r | constructor].
  - (* CCons *) intros name n IHn rest IHrest r s s' H T rs Hc.
    rewrite scanEntries_cons in H. inv_bind H. destruct a.
    destruct n as [f|acc cs|]; cbn [entered_entries].
    + change (v_file r name f s = (inr tt, s0)) in Hm.
      pose proof (v_file_ok _ _ _ _ _ _ _ Hc Hm) as ->.
      destruct (IHrest r _ _ Hk _ _ eq_refl) as (HT & Hd & Hr & Hh & out & Hl & Hf).
      cbn in *. rewrite Hd, Hr, Hh, Hl. split; [exact HT|].
      split; [set_solver|]. split; [reflexivity|]. split; [reflexivity|].
      eexists; split; [rewrite <- app_assoc; reflexivity|].
      apply Forall_app_2.
      * eapply Forall_impl; [apply file_reports_dir|]. intros rep Hd1.
        exists r; split; [exact Hd1 | left; reflexivity].
      * eapply Forall_impl; [exact Hf|]. intros rep (d & Hd1 & Hor). exists d.
        split; [exact Hd1|]. destruct Hor as [-> | Hin]; [left; reflexivity | right; set_solver].
    + destruct (is_dot_or_dotdot name).
      * injection Hm as <-.
        destruct (IHrest r _ _ Hk _ _ Hc) as (HT & Hd & Hr & Hh & out & Hl & Hf).
        rewrite Hd, Hr, Hh, Hl. split; [exact HT|].
        split; [set_solver|]. split; [reflexivity|]. split; [reflexivity|].
        exists out. split; [reflexivity|].
        eapply Forall_impl; [exact Hf|]. intros rep (d & Hd1 & Hor). exists d.
        split; [exact Hd1|]. destruct Hor as [-> | Hin]; [left; reflexivity | right; set_solver].
      * destruct (IHn _ _ _ Hm) as (Hc1 & Hd1 & Hr1 & Hh1 & out1 & Hl1 & Hf1).
        rewrite Hc in Hc1.
        destruct (IHrest r _ _ Hk _ _ Hc1) as (HT & Hd & Hr & Hh & out & Hl & Hf).
        rewrite Hd, Hr, Hh, Hl, Hd1, Hr1, Hh1, Hl1. split; [exact HT|].
        split; [rewrite list_to_set_app_L; set_solver|]. split; [reflexivity|].
        split; [reflexivity|].
        eexists; split; [rewrite <- app_assoc; reflexivity|].
        apply Forall_app_2.
        -- eapply Forall_impl; [exact Hf1|]. intros rep (d & Hd2 & Hin). exists d.
           split; [exact Hd2|]. right. set_solver.
        -- eapply Forall_impl; [exact Hf|]. intros rep (d & Hd2 & Hor). exists d.
           split; [exact Hd2|]. destruct Hor as [-> | Hin]; [left; reflexivity | right; set_solver].
    + injection Hm as <-.
      destruct (IHrest r _ _ Hk _ _ Hc) as (HT & Hd & Hr & Hh & out & Hl & Hf).
      rewrite Hd, Hr, Hh, Hl. split; [exact HT|].
      split; [set_solver|]. split; [reflexivity|]. split; [reflexivity|].
      exists out. split; [reflexivity|].
      eapply Forall_impl; [exact Hf|]. intros rep (d & Hd1 & Hor). exists d.
      split; [exact Hd1|]. destruct Hor as [-> | Hin]; [left; reflexivity | right; set_solver].
Qed.

(** ** Frame: [verifyDir] neither writes the DB nor calls the handler *)

Lemma frames_bind {A B} (m : M VState A) (f : A -> M VState B) :
  frames m -> (forall a, frames (f a)) -> frames (m ≫= f).
Proof.
  intros Hm Hf s. unfold mbind, M_bind.
  specialize (Hm s). destruct (m s) as [[e|a] s1]; cbn in *; [exact Hm|].
  destruct (Hf a s1) as [-> ->]. exact Hm.
Qed.

Lemma frames_ret {A} (a : A) : frames (mret a).
Proof. intros s. split; reflexivity. Qed.

Lemma frames_throw {A} e : frames (throw (A:=A) e).
Proof. intros s. split; reflexivity. Qed.

Lemma frames_get : frames get.
Proof. intros s. split; reflexivity. Qed.

Lemma frames_modify f :
  (forall s, dbRef (f s) = dbRef s /\ handled (f s) = handled s) -> frames (modify f).
Proof. intros Hf s. exact (Hf s). Qed.

Lemma frames_liftE {A} (r : Err + A) : frames (liftE r).
Proof. destruct r; intros s; split; reflexivity. Qed.

Lemma frames_mapM_ {A} (f : A -> M VState unit) l :
  (forall x, frames (f x)) -> frames (mapM_ f l).
Proof.
  intros Hf. induction l as [|x l IH]; simpl.
  - apply frames_ret.
  - apply frames_bind; [apply Hf | intros; exact IH].
Qed.

Create HintDb frames.

#[local] Hint Resolve frames_ret frames_throw frames_get frames_liftE : frames.

Ltac solve_frames :=
  repeat first
    [ apply frames_bind; intros
    | apply frames_mapM_; intros
    | apply frames_modify; intros; split; reflexivity
    | solve [auto with frames]
    | match goal with
      | |- frames (match ?x with _ => _ end) => destruct x
      | |- frames (if ?b then _ else _) => destruct b
      end ].

Lemma frames_logR r : frames (logR r).
Proof. unfold logR. solve_frames. Qed.

#[local] Hint Resolve frames_logR : frames.

Lemma frames_handler :
  (forall r, frames (v_dirStart r)) /\ (forall r, frames (v_dirEnd r)) /\
  (forall r n f, frames (v_file r n f)).
Proof.
  split; [|split]; intros; unfold v_dirStart, v_dirEnd, v_file; solve_frames.
Qed.

Lemma frames_scan :
  (forall n r, frames (scanFiles r n)) /\ (forall cs r, frames (scanEntries r cs)).
Proof.
  destruct frames_handler as (Hs & He & Hf).
  apply node_children_mut; intros; simpl; solve_frames;
    first [apply Hs | apply He | apply Hf].
Qed.

Lemma frames_verifyDir root : frames (verifyDir root).
Proof.
  unfold verifyDir. solve_frames. apply (proj1 frames_scan).
Qed.

(** ** Reports of one directory *)

Lemma string_length_app (s1 s2 : string) :
  String.length (s1 +:+ s2) = (String.length s1 + String.length s2)%nat.
Proof. induction s1 as [|c s1 IH]; simpl; [reflexivity | rewrite IH; reflexivity]. Qed.

Lemma joinRel_length r name :
  (String.length r <= String.length (joinRel r name))%nat /\
  (name <> "" -> String.length r < String.length (joinRel r name))%nat.
Proof.
  unfold joinRel. destruct (String.eqb_spec r "") as [->|Hr].
  - simpl. split; [lia|]. intros Hn. destruct name; [congruence | simpl; lia].
  - rewrite !string_length_app. simpl. split; lia.
Qed.

Lemma entered_len :
  (forall n q p, p ∈ entered q n -> (String.length q <= String.length p)%nat) /\
  (forall cs q p, p ∈ entered_entries q cs -> (String.length q <= String.length p)%nat).
Proof.
  apply node_children_mut; simpl.
  - intros f q p Hp. apply elem_of_nil in Hp as [].
  - intros acc cs IH q p Hp. destruct acc; try (apply elem_of_nil in Hp as []).
    apply elem_of_cons in Hp as [-> | Hp]; [lia | exact (IH q p Hp)].
  - intros q p Hp. apply elem_of_nil in Hp as [].
  - intros q p Hp. apply elem_of_nil in Hp as [].
  - intros name n IHn rest IHrest q p Hp.
    apply elem_of_app in Hp as [Hp | Hp]; [|exact (IHrest q p Hp)].
    destruct n as [f|acc cs|]; try (apply elem_of_nil in Hp as []).
    destruct (is_dot_or_dotdot name); [apply elem_of_nil in Hp as []|].
    pose proof (IHn _ _ Hp). pose proof (proj1 (joinRel_length q name)). lia.
Qed.

Lemma filter_at_dir_all r (l : list Report) :
  Forall (fun rep => file_dir rep = Some r) l -> List.filter (at_dir r) l = l.
Proof.
  induction 1 as [|rep l Hrep _ IH]; simpl; [reflexivity|].
  unfold at_dir at 1. rewrite Hrep, String.eqb_refl, IH. reflexivity.
Qed.

Lemma filter_at_dir_none r (l : list Report) :
  Forall (fun rep => exists d, file_dir rep = Some d /\
            (String.length r < String.length d)%nat) l ->
  List.filter (at_dir r) l = [].
Proof.
  induction 1 as [|rep l (d & Hd & Hlt) _ IH]; simpl; [reflexivity|].
  unfold at_dir at 1. rewrite Hd, IH.
  destruct (String.eqb_spec d r) as [->|]; [lia | reflexivity].
Qed.

Lemma reg_names_child cs k : k ∈ reg_names cs -> k ∈ child_names cs.
Proof.
  induction cs as [|name n rest IH]; simpl; [intros Hk; exact Hk|].
  destruct n; intros Hk; try (apply elem_of_cons; right; exact (IH Hk)).
  apply elem_of_cons in Hk as [-> | Hk]; apply elem_of_cons; [left | right]; auto.
Qed.

Lemma wf_listing_tail name n rest :
  wf_listing (CCons name n rest) ->
  wf_listing rest /\ (name ∉ child_names rest) /\ name <> "".
Proof.
  intros [Hnd Hne]. simpl in *. apply NoDup_cons in Hnd as [Hnotin Hnd].
  apply Forall_cons in Hne as [Hn Hne]. repeat split; assumption.
Qed.

Lemma entries_at_dir cs :
  forall r s s', scanEntries r cs s = (inr tt, s') -> wf_listing cs ->
  forall T rest (T0 : DirFileMap), ctxs s = T :: rest ->
  (forall k, k ∈ child_names cs -> T !! k = T0 !! k) ->
  exists T' out, ctxs s' = T' :: rest /\ log s' = log s ++ out /\
    (forall k, T' !! k = if bool_decide (k ∈ reg_names cs) then None else T !! k) /\
    List.filter (at_dir r) out = entry_reports r T0 cs.
Proof.
  induction cs as [|name n rest IH]; intros r s s' H Hwf T rs T0 Hc Hag.
  - injection H as <-. exists T, []. split; [exact Hc|].
    split; [symmetry; apply app_nil_r|]. split; [reflexivity|]. reflexivity.
  - destruct (wf_listing_tail _ _ _ Hwf) as (Hwf' & Hnotin & Hne).
    assert (Hag' : forall k, k ∈ child_names rest -> T !! k = T0 !! k)
      by (intros k Hk; apply Hag; simpl; apply elem_of_cons; right; exact Hk).
    assert (Hname : T !! name = T0 !! name)
      by (apply Hag; simpl; apply elem_of_cons; left; reflexivity).
    rewrite scanEntries_cons in H. apply bind_ok in H as ([] & s0 & Hm & Hk).
    destruct n as [f|acc cs|]; cbn [reg_names entry_reports].
    + change (v_file r name f s = (inr tt, s0)) in Hm.
      pose proof (v_file_ok _ _ _ _ _ _ _ Hc Hm) as ->.
      destruct (IH r _ _ Hk Hwf' (delete name T) rs T0 eq_refl) as
        (T' & out & HT' & Hl & Hpt & Hf).
      { intros k Hk'. rewrite lookup_delete_ne; [apply Hag'; exact Hk'|].
        intros ->. exact (Hnotin Hk'). }
      exists T', (file_reports r T name f ++ out). split; [exact HT'|].
      split; [rewrite Hl; cbn; rewrite app_assoc; reflexivity|].
      split.
      * intros k. rewrite Hpt.
        destruct (String.eq_dec k name) as [->|Hkn].
        -- rewrite (bool_decide_true (name ∈ name :: reg_names rest))
             by (apply elem_of_cons; left; reflexivity).
           rewrite bool_decide_false by (intros Hr; exact (Hnotin (reg_names_child _ _ Hr))).
           apply lookup_delete_eq.
        -- rewrite lookup_delete_ne by congruence.
           destruct (bool_decide (k ∈ reg_names rest)) eqn:Hb.
           ++ apply bool_decide_eq_true in Hb.
              rewrite bool_decide_true by (apply elem_of_cons; right; exact Hb).
              reflexivity.
           ++ apply bool_decide_eq_false in Hb.
              rewrite bool_decide_false; [reflexivity|].
              intros Hin. apply elem_of_cons in Hin as [|]; congruence.
      * rewrite List.filter_app, filter_at_dir_all by apply file_reports_dir.
        rewrite Hf. unfold file_reports. rewrite Hname. reflexivity.
    + destruct (is_dot_or_dotdot name) eqn:Hdot.
      * injection Hm as <-. exact (IH r _ _ Hk Hwf' T rs T0 Hc Hag').
      * destruct (proj1 scan_ok _ _ _ _ Hm) as (Hc1 & _ & _ & _ & out1 & Hl1 & Hf1).
        rewrite Hc in Hc1.
        destruct (IH r _ _ Hk Hwf' T rs T0 Hc1 Hag') as (T' & out & HT' & Hl & Hpt & Hf).
        exists T', (out1 ++ out). split; [exact HT'|].
        split; [rewrite Hl, Hl1, app_assoc; reflexivity|]. split; [exact Hpt|].
        rewrite List.filter_app, Hf, filter_at_dir_none; [reflexivity|].
        eapply Forall_impl; [exact Hf1|]. intros rep (d & Hd & Hin). exists d.
        split; [exact Hd|]. apply (proj1 entered_len) in Hin.
        pose proof (proj2 (joinRel_length r name) Hne). lia.
    + injection Hm as <-. exact (IH r _ _ Hk Hwf' T rs T0 Hc Hag').
Qed.

(** The reports a directory's scan writes about the directory itself:
    one group per regular file, in [readdir] order, then one
    [FileNotFound] per entry left in the expectation. *)
Lemma dir_reports r cs s s' :
  wf_listing cs -> scanFiles r (Dir Opened cs) s = (inr tt, s') ->
  exists (T' : DirFileMap) out, log s' = log s ++ out /\
    (forall k, T' !! k = if bool_decide (k ∈ reg_names cs) then None
                         else getFiles (dbRef s) r !! k) /\
    List.filter (at_dir r) out =
      entry_reports r (getFiles (dbRef s) r) cs ++
      map (fun kv : string * FileRecord => FileNotFound r kv.1) (map_to_list T').
Proof.
  intros Hwf H. rewrite scanFiles_Opened in H.
  apply bind_ok in H as ([] & s1 & Hm & Hk).
  change (v_dirStart r s = (inr tt, s1)) in Hm.
  rewrite v_dirStart_eq in Hm. injection Hm as <-.
  apply bind_ok in Hk as ([] & s2 & Hm2 & Hk2).
  destruct (entries_at_dir cs r _ _ Hm2 Hwf _ _ (getFiles (dbRef s) r) eq_refl
              (fun _ _ => eq_refl)) as (T' & out & HT' & Hl & Hpt & Hf).
  change (v_dirEnd r s2 = (inr tt, s')) in Hk2.
  rewrite (v_dirEnd_eq _ _ _ _ HT') in Hk2. injection Hk2 as <-.
  exists T', (out ++ map (fun kv : string * FileRecord => FileNotFound r kv.1) (map_to_list T')).
  cbn. rewrite Hl. cbn. split; [rewrite app_assoc; reflexivity|]. split; [exact Hpt|].
  rewrite List.filter_app, Hf, filter_at_dir_all; [reflexivity|].
  apply Forall_forall. intros rep Hin. apply list_elem_of_In in Hin.
  apply in_map_iff in Hin as (kv & <- & _). reflexivity.
Qed.

Lemma filter_through_at_dir (p : Report -> bool) r (l : list Report) :
  (forall rep, p rep = true -> at_dir r rep = true) ->
  List.filter p l = List.filter p (List.filter (at_dir r) l).
Proof.
  intros Hp. induction l as [|rep l IH]; simpl; [reflexivity|].
  destruct (p rep) eqn:Hr.
  - rewrite (Hp _ Hr). simpl. rewrite Hr, IH. reflexivity.
  - destruct (at_dir r rep); simpl; rewrite ?Hr; exact IH.
Qed.

Lemma file_reports_name r T name f :
  Forall (fun rep => file_dir rep = Some r /\ file_name rep = Some name)
         (file_reports r T name f).
Proof.
  unfold file_reports, field_reports.
  destruct (T !! name); [destruct f|]; repeat constructor.
  repeat apply Forall_app_2;
    repeat match goal with |- context [if ?b then _ else _] => destruct b end;
    repeat constructor.
Qed.

Lemma filter_about_file_reports r n T name f :
  List.filter (about r n) (file_reports r T name f) =
  if String.eqb name n then file_reports r T name f else [].
Proof.
  induction (file_reports_name r T name f) as [|rep l [Hd Hn] _ IH]; simpl.
  - destruct (String.eqb name n); reflexivity.
  - unfold about at 1. rewrite Hd, Hn, String.eqb_refl, IH. simpl.
    destruct (String.eqb name n); reflexivity.
Qed.

Lemma entry_reports_about_absent r n T cs :
  n ∉ child_names cs -> List.filter (about r n) (entry_reports r T cs) = [].
Proof.
  induction cs as [|name nd rest IH]; simpl; intros Hn; [reflexivity|].
  assert (Hr : n ∉ child_names rest) by (intros Hin; apply Hn, elem_of_cons; right; exact Hin).
  destruct nd; try exact (IH Hr).
  rewrite List.filter_app, filter_about_file_reports, (IH Hr).
  destruct (String.eqb_spec name n) as [->|]; [exfalso; apply Hn, elem_of_cons; left; reflexivity|].
  reflexivity.
Qed.

Lemma entry_reports_about r n T cs f :
  wf_listing cs -> child_lookup n cs = Some (Reg f) ->
  List.filter (about r n) (entry_reports r T cs) = file_reports r T n f.
Proof.
  induction cs as [|name nd rest IH]; simpl; intros Hwf Hl; [discriminate|].
  destruct (wf_listing_tail _ _ _ Hwf) as (Hwf' & Hnotin & _).
  destruct (String.eqb_spec name n) as [->|Hne].
  - injection Hl as ->. rewrite List.filter_app, filter_about_file_reports,
      String.eqb_refl, entry_reports_about_absent by exact Hnotin.
    apply app_nil_r.
  - destruct nd; try exact (IH Hwf' Hl).
    rewrite List.filter_app, filter_about_file_reports, (IH Hwf' Hl).
    apply String.eqb_neq in Hne. rewrite Hne. reflexivity.
Qed.

Lemma child_lookup_reg n cs f : child_lookup n cs = Some (Reg f) -> n ∈ reg_names cs.
Proof.
  induction cs as [|name nd rest IH]; simpl; [discriminate|].
  destruct (String.eqb_spec name n) as [->|Hne].
  - intros Hl. injection Hl as ->. apply elem_of_cons. left. reflexivity.
  - intros Hl. destruct nd; [apply elem_of_cons; right| |]; exact (IH Hl).
Qed.

(** The [FileNotFound] reports of [dirEnd] name the keys left in the
    expectation. *)
Lemma filter_about_not_found r n (T' : DirFileMap) :
  T' !! n = None ->
  List.filter (about r n)
    (map (fun kv : string * FileRecord => FileNotFound r kv.1) (map_to_list T')) = [].
Proof.
  intros Hn.
  assert (Hk : forall kv, kv ∈ map_to_list T' -> kv.1 <> n).
  { intros [k v] Hkv. apply elem_of_map_to_list in Hkv. simpl. intros ->. congruence. }
  revert Hk. generalize (map_to_list T') as l.
  induction l as [|kv l IH]; intros Hk; simpl; [reflexivity|].
  unfold about at 1. simpl. rewrite String.eqb_refl. simpl.
  destruct (String.eqb_spec kv.1 n) as [Heq|_].
  - exfalso. apply (Hk kv); [apply elem_of_cons; left; reflexivity | exact Heq].
  - apply IH. intros kv' Hin. apply Hk, elem_of_cons. right. exact Hin.
Qed.

(** ** One file with mismatching fields *)

(** C1: a file of the expectation of kind [file] whose live size and
    content differ but whose timestamp is equal gets exactly two reports
    when its directory is scanned (size, then digest) and neither a
    "new file" nor a "file not found" report. *)
Theorem verify_size_digest_mismatch_only (r : string) (cs : children) (s s' : VState)
    (n : string) (e a : FileRecord) :
  wf_listing cs ->
  child_lookup n cs = Some (Reg (inr a)) ->
  getFiles (dbRef s) r !! n = Some e ->
  type e = file ->
  fileSize e <> fileSize a ->
  lastModifiedMillis e = lastModifiedMillis a ->
  md5Digest e <> md5Digest a ->
  scanFiles r (Dir Opened cs) s = (inr tt, s') ->
  exists out, log s' = log s ++ out /\
    List.filter (about r n) out =
      [SizeMismatch r n (fileSize e) (fileSize a);
       DigestMismatch r n (md5Digest e) (md5Digest a)].
Proof.
  intros Hwf Hl He _ Hsz Hts Hmd H.
  destruct (dir_reports _ _ _ _ Hwf H) as (T' & out & Hlog & Hpt & Hf).
  exists out. split; [exact Hlog|].
  rewrite (filter_through_at_dir _ r).
  2:{ intros rep. unfold about, at_dir.
      destruct (file_dir rep), (file_name rep); try discriminate.
      intros Hb. apply andb_prop in Hb as [Hb _]. exact Hb. }
  rewrite Hf, List.filter_app, filter_about_not_found.
  2:{ rewrite Hpt, bool_decide_true; [reflexivity|]. exact (child_lookup_reg _ _ _ Hl). }
  rewrite (entry_reports_about _ _ _ _ _ Hwf Hl), app_nil_r.
  unfold file_reports. rewrite He. unfold field_reports.
  rewrite Hts, Z.eqb_refl.
  apply Z.eqb_neq in Hsz. rewrite Hsz.
  rewrite bool_decide_false by congruence. reflexivity.
Qed.

Lemma verify_size_digest_mismatch_only_witness :
  exists out, log (snd (scanFiles "" (Dir Opened listing_a) state_a)) = log state_a ++ out /\
    List.filter (about "" "a.txt") out =
      [SizeMismatch "" "a.txt" 10 12;
       DigestMismatch "" "a.txt" [Byte.x01; Byte.x02] [Byte.x07; Byte.x08]].
Proof.
  apply (verify_size_digest_mismatch_only "" listing_a state_a
           (snd (scanFiles "" (Dir Opened listing_a) state_a)) "a.txt" rec_db rec_fs).
  - split; apply (bool_decide_unpack _); vm_compute; reflexivity.
  - reflexivity.
  - vm_compute. reflexivity.
  - reflexivity.
  - vm_compute. discriminate.
  - reflexivity.
  - vm_compute. discriminate.
  - vm_compute. reflexivity.
Defined.

(** ** Counting the reports of one directory *)

Lemma field_reports_kinds r n e a :
  Forall (fun rep => is_new_at r rep = false /\ forall d m, rep <> FileNotFound d m)
         (field_reports r n e a).
Proof.
  unfold field_reports. repeat apply Forall_app_2;
    repeat match goal with |- context [if ?b then _ else _] => destruct b end;
    repeat constructor; intros; discriminate.
Qed.

Lemma filter_false_all (p : Report -> bool) (l : list Report) :
  Forall (fun rep => p rep = false) l -> List.filter p l = [].
Proof. induction 1 as [|x l Hx _ IH]; simpl; [reflexivity|]. rewrite Hx. exact IH. Qed.

Lemma entry_reports_new r (E : DirFileMap) cs :
  length (List.filter (is_new_at r) (entry_reports r E cs)) =
  length (List.filter (fun k => negb (bool_decide (k ∈ dom E))) (reg_names cs)).
Proof.
  induction cs as [|name nd rest IH]; simpl; [reflexivity|].
  destruct nd as [f| |]; try exact IH. simpl.
  rewrite List.filter_app, length_app, IH. unfold file_reports.
  destruct (E !! name) as [e|] eqn:HE.
  - rewrite bool_decide_true by (apply elem_of_dom; eauto). simpl.
    destruct f as [|a]; [reflexivity|].
    rewrite filter_false_all; [reflexivity|].
    eapply Forall_impl; [apply (field_reports_kinds r name e a)|].
    intros rep [Hn _]. exact Hn.
  - rewrite bool_decide_false by (apply not_elem_of_dom; exact HE). simpl.
    rewrite String.eqb_refl. reflexivity.
Qed.

Lemma entry_reports_no_notfound r (E : DirFileMap) cs (p : Report -> bool) :
  (forall rep, p rep = true -> exists d m, rep = FileNotFound d m) ->
  List.filter p (entry_reports r E cs) = [].
Proof.
  intros Hp. induction cs as [|name nd rest IH]; simpl; [reflexivity|].
  destruct nd as [f| |]; try exact IH.
  rewrite List.filter_app, IH, app_nil_r. apply filter_false_all.
  assert (Hq : forall rep, (forall d m, rep <> FileNotFound d m) -> p rep = false).
  { intros rep Hrep. destruct (p rep) eqn:Hr; [|reflexivity].
    destruct (Hp _ Hr) as (d & m & ->). exfalso. exact (Hrep d m eq_refl). }
  unfold file_reports. destruct (E !! name) as [e|].
  - destruct f as [|a]; [constructor|].
    eapply Forall_impl; [apply (field_reports_kinds r name e a)|].
    intros rep [_ Hn]. exact (Hq rep Hn).
  - constructor; [|constructor]. apply Hq. intros d m Hx. discriminate Hx.
Qed.

Lemma reg_names_NoDup cs : wf_listing cs -> NoDup (reg_names cs).
Proof.
  induction cs as [|name nd rest IH]; simpl; intros Hwf; [constructor|].
  destruct (wf_listing_tail _ _ _ Hwf) as (Hwf' & Hnotin & _).
  destruct nd; try exact (IH Hwf').
  constructor; [|exact (IH Hwf')]. intros Hin. exact (Hnotin (reg_names_child _ _ Hin)).
Qed.

Lemma length_filter_size (p : string -> bool) (l : list string) (X : gset string) :
  NoDup l -> (forall k, k ∈ X <-> k ∈ l /\ p k = true) ->
  length (List.filter p l) = size X.
Proof.
  intros Hnd HX.
  assert (X = list_to_set (List.filter p l)) as ->.
  { apply set_eq. intros k. rewrite HX, elem_of_list_to_set, !list_elem_of_In, List.filter_In.
    reflexivity. }
  rewrite size_list_to_set; [reflexivity|].
  apply NoDup_ListNoDup, List.NoDup_filter, NoDup_ListNoDup. exact Hnd.
Qed.

Lemma length_filter_eqb_NoDup (l : list string) n :
  NoDup l -> length (List.filter (fun k => String.eqb k n) l) =
             if bool_decide (n ∈ l) then 1%nat else 0%nat.
Proof.
  induction 1 as [|k l Hk Hnd IH]; simpl; [reflexivity|].
  destruct (String.eqb_spec k n) as [->|Hne]; simpl.
  - rewrite IH, bool_decide_false by exact Hk.
    rewrite bool_decide_true by (apply elem_of_cons; left; reflexivity). reflexivity.
  - rewrite IH. destruct (bool_decide (n ∈ l)) eqn:Hb.
    + apply bool_decide_eq_true in Hb.
      rewrite bool_decide_true by (apply elem_of_cons; right; exact Hb). reflexivity.
    + apply bool_decide_eq_false in Hb.
      rewrite bool_decide_false; [reflexivity|].
      intros Hin. apply elem_of_cons in Hin as [|]; [congruence | contradiction].
Qed.

Lemma filter_notfound_map r (l : list (string * FileRecord)) :
  List.filter (is_notfound_at r) (map (fun kv : string * FileRecord => FileNotFound r kv.1) l) =
  map (fun kv : string * FileRecord => FileNotFound r kv.1) l.
Proof.
  induction l as [|kv l IH]; simpl; [reflexivity|]. rewrite String.eqb_refl, IH. reflexivity.
Qed.

Lemma filter_notfound_of_map r n (l : list (string * FileRecord)) :
  List.filter (is_notfound_of r n) (map (fun kv : string * FileRecord => FileNotFound r kv.1) l) =
  map (FileNotFound r) (List.filter (fun k => String.eqb k n) l.*1).
Proof.
  induction l as [|kv l IH]; simpl; [reflexivity|]. rewrite String.eqb_refl. simpl.
  destruct (String.eqb kv.1 n); simpl; rewrite IH; reflexivity.
Qed.

(** C2: for a directory entered and left, the "new file" reports, the
    regular files found in the expectation and the "file not found"
    reports add up to the size of the union of the live regular files
    and the expected entries; each entry left at [dirEnd] (and only
    those: a visited file is removed whatever the comparison gave) has
    exactly one "file not found" report. *)
Theorem verify_dir_accounting (r : string) (cs : children) (s s' : VState) :
  wf_listing cs ->
  scanFiles r (Dir Opened cs) s = (inr tt, s') ->
  exists out, log s' = log s ++ out /\
    (length (List.filter (is_new_at r) out) +
     size ((list_to_set (reg_names cs) : gset string) ∩ dom (getFiles (dbRef s) r)) +
     length (List.filter (is_notfound_at r) out) =
     size ((list_to_set (reg_names cs) : gset string) ∪ dom (getFiles (dbRef s) r)))%nat /\
    (forall n, length (List.filter (is_notfound_of r n) out) =
       if bool_decide (n ∈ dom (getFiles (dbRef s) r) ∖ (list_to_set (reg_names cs) : gset string))
       then 1%nat else 0%nat).
Proof.
  intros Hwf H.
  destruct (dir_reports _ _ _ _ Hwf H) as (T' & out & Hlog & Hpt & Hf).
  set (E := getFiles (dbRef s) r) in *.
  set (F := (list_to_set (reg_names cs) : gset string)).
  pose proof (reg_names_NoDup _ Hwf) as Hnd.
  assert (HdT : dom T' = dom E ∖ F).
  { apply set_eq. intros k. rewrite elem_of_difference, !elem_of_dom, Hpt.
    unfold F. rewrite elem_of_list_to_set.
    destruct (bool_decide (k ∈ reg_names cs)) eqn:Hb.
    - apply bool_decide_eq_true in Hb. split; [intros [v Hv]; discriminate | tauto].
    - apply bool_decide_eq_false in Hb. tauto. }
  set (NF := map (fun kv : string * FileRecord => FileNotFound r kv.1) (map_to_list T')).
  exists out. split; [exact Hlog|]. split.
  - rewrite (filter_through_at_dir (is_new_at r) r).
    2:{ intros [] Hb; try discriminate; exact Hb. }
    rewrite (filter_through_at_dir (is_notfound_at r) r out).
    2:{ intros [] Hb; try discriminate; exact Hb. }
    rewrite Hf, !List.filter_app, !length_app.
    rewrite (entry_reports_no_notfound r E cs (is_notfound_at r)).
    2:{ intros [] Hb; try discriminate; eauto. }
    rewrite entry_reports_new.
    assert (Hn1 : List.filter (is_new_at r) NF = []).
    { apply filter_false_all. apply Forall_forall. intros rep Hin.
      apply list_elem_of_In, in_map_iff in Hin as (kv & <- & _). reflexivity. }
    assert (Hn2 : List.filter (is_notfound_at r) NF = NF) by apply filter_notfound_map.
    fold NF. rewrite Hn1, Hn2. unfold NF. rewrite length_map, length_map_to_list.
    rewrite <- size_dom, HdT. simpl.
    rewrite (length_filter_size _ _ (F ∖ dom E) Hnd).
    2:{ intros k. rewrite elem_of_difference. unfold F. rewrite elem_of_list_to_set.
        destruct (bool_decide (k ∈ dom E)) eqn:Hb; simpl.
        - apply bool_decide_eq_true in Hb. split; [tauto | intros [_ ?]; discriminate].
        - apply bool_decide_eq_false in Hb. tauto. }
    clearbody NF F E.
    pose proof (size_union_alt F (dom E)) as Hsu.
    pose proof (size_union (F ∖ dom E) (F ∩ dom E) ltac:(set_solver)) as Hsu2.
    assert (HF : F ∖ dom E ∪ F ∩ dom E = F).
    { apply set_eq. intros k. rewrite elem_of_union, elem_of_difference, elem_of_intersection.
      destruct (decide (k ∈ dom E)); tauto. }
    rewrite HF in Hsu2. lia.
  - intros n.
    rewrite (filter_through_at_dir (is_notfound_of r n) r).
    2:{ intros [] Hb; try discriminate. simpl in Hb. apply andb_prop in Hb as [Hb _]. exact Hb. }
    rewrite Hf, List.filter_app,
      (entry_reports_no_notfound r E cs (is_notfound_of r n)).
    2:{ intros [] Hb; try discriminate; eauto. }
    simpl. rewrite <- HdT.
    assert (Hm : List.filter (is_notfound_of r n) NF =
                 map (FileNotFound r) (List.filter (fun k => String.eqb k n) (map_to_list T').*1))
      by apply filter_notfound_of_map.
    fold NF. rewrite Hm, length_map, length_filter_eqb_NoDup by apply NoDup_fst_map_to_list.
    assert (Hiff : n ∈ (map_to_list T').*1 <-> n ∈ dom T').
    { rewrite elem_of_dom, list_elem_of_fmap. split.
      - intros ([k v] & -> & Hin). apply elem_of_map_to_list in Hin. eexists; exact Hin.
      - intros [v Hv]. exists (n, v). split; [reflexivity|]. apply elem_of_map_to_list. exact Hv. }
    rewrite (bool_decide_ext _ _ Hiff). reflexivity.
Qed.

Lemma verify_dir_accounting_witness :
  exists out, log (snd (scanFiles "" (Dir Opened listing_a) state_a)) = log state_a ++ out /\
    (length (List.filter (is_new_at "") out) +
     size ((list_to_set (reg_names listing_a) : gset string) ∩ dom (getFiles (dbRef state_a) "")) +
     length (List.filter (is_notfound_at "") out) =
     size ((list_to_set (reg_names listing_a) : gset string) ∪ dom (getFiles (dbRef state_a) "")))%nat /\
    (forall n, length (List.filter (is_notfound_of "" n) out) =
       if bool_decide (n ∈ dom (getFiles (dbRef state_a) "") ∖
                             (list_to_set (reg_names listing_a) : gset string))
       then 1%nat else 0%nat).
Proof.
  apply (verify_dir_accounting "" listing_a state_a
           (snd (scanFiles "" (Dir Opened listing_a) state_a))).
  - split; apply (bool_decide_unpack _); vm_compute; reflexivity.
  - vm_compute. reflexivity.
Defined.

(** C2 as stated counts all live children: the live subdirectory [sub]
    is in the union of the live and expected children of the root, yet
    the root's scan writes no report about it (the walker recurses into
    it instead of visiting it). *)
Lemma verify_dir_accounting_counterexample :
  fst (scanFiles "" (Dir Opened listing_sub) state_sub) = inr tt /\
  exists out, log (snd (scanFiles "" (Dir Opened listing_sub) state_sub)) = log state_sub ++ out /\
    (length (List.filter (is_new_at "") out) +
     size ((list_to_set (reg_names listing_sub) : gset string) ∩ dom (getFiles db_sub "")) +
     length (List.filter (is_notfound_at "") out) <>
     size ((list_to_set (child_names listing_sub) : gset string) ∪ dom (getFiles db_sub "")))%nat.
Proof.
  split; [vm_compute; reflexivity|].
  exists []. split; [vm_compute; reflexivity|]. vm_compute. discriminate.
Qed.

(** ** A whole run *)

Lemma run_ok db root s' :
  run_verifyDir db root = (inr tt, s') ->
  dbDirs s' = db_dirs db ∖ list_to_set (entered "" root) /\
  exists out, log s' = out ++ map DirNotFound (elements (dbDirs s')) /\
    Forall (fun rep => exists d, file_dir rep = Some d /\ d ∈ entered "" root) out.
Proof.
  intros H. unfold run_verifyDir, verifyDir in H.
  apply bind_ok in H as ([] & s1 & Hm & Hk). injection Hm as <-.
  apply bind_ok in Hk as ([] & s2 & Hm2 & Hk2).
  destruct (proj1 scan_ok _ _ _ _ Hm2) as (Hc & Hd & _ & _ & out & Hl & Hf).
  apply bind_ok in Hk2 as (s3 & s4 & Hg & Hk3). injection Hg as <- <-.
  apply bind_ok in Hk3 as ([] & s5 & Hm5 & Hk5).
  rewrite mapM_logR in Hm5. injection Hm5 as <-.
  apply bind_ok in Hk5 as (s6 & s7 & Hg & Hk6). injection Hg as <- <-.
  destruct (bool_decide _); [|discriminate]. injection Hk6 as <-. cbn.
  rewrite Hd. cbn. split; [reflexivity|].
  exists out. split; [rewrite Hl; reflexivity | exact Hf].
Qed.

Lemma entered_live :
  (forall n r p, p ∈ entered r n -> p ∈ live_dirs r n) /\
  (forall cs r p, p ∈ entered_entries r cs -> p ∈ live_dirs_entries r cs).
Proof.
  apply node_children_mut; simpl.
  - intros f r p Hp. exact Hp.
  - intros acc cs IH r p Hp. destruct acc; try (apply elem_of_nil in Hp as []).
    apply elem_of_cons in Hp as [-> | Hp]; apply elem_of_cons; [left; reflexivity | right; auto].
  - intros r p Hp. exact Hp.
  - intros r p Hp. exact Hp.
  - intros name n IHn rest IHrest r p Hp.
    apply elem_of_app in Hp as [Hp | Hp]; apply elem_of_app; [left | right; auto].
    destruct n; try exact Hp. destruct (is_dot_or_dotdot name); [exact Hp | auto].
Qed.

Lemma filter_dirnotfound_map p (l : list string) :
  List.filter (is_dirnotfound p) (map DirNotFound l) =
  map DirNotFound (List.filter (fun k => String.eqb k p) l).
Proof.
  induction l as [|k l IH]; simpl; [reflexivity|].
  destruct (String.eqb k p); simpl; rewrite IH; reflexivity.
Qed.

(** C5 (amended): every recorded directory that is not a live directory
    (a removed subdirectory, and each recorded directory nested in it)
    gets exactly one [DirNotFound] report, and no file-level report is
    about a file of it. *)
Theorem verify_missing_dir_reported (db : FileDB) (root : node) (s' : VState) (p : string) :
  run_verifyDir db root = (inr tt, s') ->
  p ∈ db_dirs db -> p ∉ live_dirs "" root ->
  length (List.filter (is_dirnotfound p) (log s')) = 1%nat /\
  Forall (fun rep => file_dir rep <> Some p) (log s').
Proof.
  intros H Hp Hlive.
  destruct (run_ok _ _ _ H) as (Hd & out & Hl & Hf).
  assert (Hent : p ∉ entered "" root) by (intros Hin; apply Hlive, (proj1 entered_live), Hin).
  assert (Hin : p ∈ dbDirs s').
  { rewrite Hd, elem_of_difference, elem_of_list_to_set. split; assumption. }
  rewrite Hl. split.
  - rewrite List.filter_app, filter_false_all.
    2:{ eapply Forall_impl; [exact Hf|]. intros rep (d & Hd1 & _).
        destruct rep; try discriminate; reflexivity. }
    simpl. rewrite filter_dirnotfound_map, length_map.
    rewrite length_filter_eqb_NoDup by apply NoDup_elements.
    rewrite bool_decide_true; [reflexivity|]. apply elem_of_elements. exact Hin.
  - apply Forall_app_2.
    + eapply Forall_impl; [exact Hf|]. intros rep (d & Hd1 & Hd2). rewrite Hd1.
      intros Heq. injection Heq as ->. exact (Hent Hd2).
    + apply Forall_forall. intros rep Hr. apply list_elem_of_In, in_map_iff in Hr as (q & <- & _).
      discriminate.
Qed.

Lemma verify_missing_dir_reported_witness :
  run_verifyDir db_ab root_empty = (inr tt, snd (run_verifyDir db_ab root_empty)) /\
  length (List.filter (is_dirnotfound "a") (log (snd (run_verifyDir db_ab root_empty)))) = 1%nat /\
  Forall (fun rep => file_dir rep <> Some "a") (log (snd (run_verifyDir db_ab root_empty))).
Proof.
  assert (H : run_verifyDir db_ab root_empty = (inr tt, snd (run_verifyDir db_ab root_empty)))
    by (vm_compute; reflexivity).
  split; [exact H|].
  apply (verify_missing_dir_reported db_ab root_empty _ "a" H).
  - apply (bool_decide_unpack _). vm_compute. reflexivity.
  - apply (bool_decide_unpack _). vm_compute. reflexivity.
Defined.

(** C5 as stated excludes reports for directories nested in a removed
    one: removing [a] also yields a [DirNotFound] report for [a/b]. *)
Lemma verify_missing_dir_nested_counterexample :
  fst (run_verifyDir db_ab root_empty) = inr tt /\
  In (DirNotFound "a") (log (snd (run_verifyDir db_ab root_empty))) /\
  In (DirNotFound "a/b") (log (snd (run_verifyDir db_ab root_empty))).
Proof. vm_compute. split; [reflexivity|]. split; auto 10. Qed.

(** C6 (amended): after a completed walk, a path of the database's
    directory set remains exactly when the walker did not enter it; the
    entered directories are live directories. *)
Theorem verify_dirset_remaining (db : FileDB) (root : node) (s' : VState) :
  run_verifyDir db root = (inr tt, s') ->
  (forall p, p ∈ dbDirs s' <-> p ∈ db_dirs db /\ p ∉ entered "" root) /\
  (forall p, p ∈ entered "" root -> p ∈ live_dirs "" root).
Proof.
  intros H. destruct (run_ok _ _ _ H) as (Hd & _). split.
  - intros p. rewrite Hd, elem_of_difference, elem_of_list_to_set. reflexivity.
  - intros p. apply (proj1 entered_live).
Qed.

Lemma verify_dirset_remaining_witness :
  run_verifyDir db_noacc root_noacc = (inr tt, snd (run_verifyDir db_noacc root_noacc)) /\
  (forall p, p ∈ dbDirs (snd (run_verifyDir db_noacc root_noacc)) <->
             p ∈ db_dirs db_noacc /\ p ∉ entered "" root_noacc) /\
  (forall p, p ∈ entered "" root_noacc -> p ∈ live_dirs "" root_noacc).
Proof.
  assert (H : run_verifyDir db_noacc root_noacc = (inr tt, snd (run_verifyDir db_noacc root_noacc)))
    by (vm_compute; reflexivity).
  split; [exact H|]. apply (verify_dirset_remaining db_noacc root_noacc _ H).
Defined.

(** C6 as stated says a path is removed iff its live directory exists:
    the live directory [a], which cannot be opened, stays in the set. *)
Lemma verify_dirset_noaccess_counterexample :
  fst (run_verifyDir db_noacc root_noacc) = inr tt /\
  "a" ∈ dbDirs (snd (run_verifyDir db_noacc root_noacc)) /\
  "a" ∈ live_dirs "" root_noacc.
Proof.
  split; [vm_compute; reflexivity|]. split.
  - apply (bool_decide_unpack _). vm_compute. reflexivity.
  - apply (bool_decide_unpack _). vm_compute. reflexivity.
Qed.

(** C10: [verifyDir] leaves the database as it found it, whatever the
    outcome of the run. *)
Theorem verifyDir_store_unchanged (db : FileDB) (root : node) :
  dbRef (snd (run_verifyDir db root)) = db.
Proof. apply (frames_verifyDir root (init_state db)). Qed.

(** ** Kind changes and the mismatch handler *)

(** The handler's comparison reports a kind change alone. *)
Lemma checkFileMismatch_kind path e a :
  type e <> type a ->
  checkFileMismatch path e a = (false, [CTypeMismatch path (type e) (type a)]).
Proof. intros Hne. unfold checkFileMismatch. rewrite bool_decide_true by exact Hne. reflexivity. Qed.

(** C3: [EventHandler::file] of [verifyDir] has no kind comparison: the
    file whose expected kind is [directory] gets size, timestamp and
    digest reports, where [checkFileMismatch] gives one kind report. *)
Theorem verifyDir_kind_change_not_suppressed :
  type rec_dir <> type rec_fs /\
  fst (run_verifyDir db_kind root_kind) = inr tt /\
  List.filter (about "" "x") (log (snd (run_verifyDir db_kind root_kind))) =
    [SizeMismatch "" "x" 0 12; TimestampMismatch "" "x" 0 1500000000000;
     DigestMismatch "" "x" [] [Byte.x07; Byte.x08]] /\
  checkFileMismatch "x" rec_dir rec_fs = (false, [CTypeMismatch "x" directory file]).
Proof.
  split; [discriminate|]. split; [vm_compute; reflexivity|].
  split; [vm_compute; reflexivity|].
  apply checkFileMismatch_kind. discriminate.
Qed.

(** C4: [verifyDir] never calls the [mismatchHandler] it is given; the
    mismatches of a run go to the log only. *)
Theorem verifyDir_ignores_mismatch_handler :
  (forall db root, handled (snd (run_verifyDir db root)) = []) /\
  log (snd (run_verifyDir db_a (Dir Opened listing_a))) =
    [SizeMismatch "" "a.txt" 10 12;
     DigestMismatch "" "a.txt" [Byte.x01; Byte.x02] [Byte.x07; Byte.x08]].
Proof.
  split.
  - intros db root. apply (frames_verifyDir root (init_state db)).
  - vm_compute. reflexivity.
Qed.

(** ** Read loop and [processFile] *)

Lemma fread_spec f buf eof f' :
  fread f = (buf, eof, f') ->
  (eof = false /\ length buf <> 4096%nat /\ short_read_error f) \/
  (eof = false /\ length buf = 4096%nat /\ remaining f = buf ++ remaining f' /\
     (short_read_error f <-> short_read_error f')) \/
  (eof = true /\ buf = remaining f /\ (length buf < 4096)%nat /\ ~ short_read_error f).
Proof.
  unfold fread, read_fails, short_read_error.
  destruct f as [d [k|]]; cbn [remaining fail_at option_map default].
  - destruct ((k <? 4096)%nat && (k <? length d)%nat) eqn:Hc.
    + intros [= <- <- _]. left. apply andb_true_iff in Hc as [H1 H2].
      apply Nat.ltb_lt in H1. apply Nat.ltb_lt in H2.
      rewrite length_take. split; [done|]. split; [lia|]. eauto.
    + apply andb_false_iff in Hc.
      destruct (4096 <=? length d)%nat eqn:Hl.
      * intros [= <- <- <-]. right; left. cbn [remaining fail_at option_map].
        apply Nat.leb_le in Hl.
        rewrite length_take. split; [done|]. split; [lia|].
        split; [symmetry; apply take_drop|].
        rewrite length_drop. split.
        -- intros (k' & [= <-] & Hk'). exists (k - 4096)%nat. split; [done|].
           destruct Hc as [Hc|Hc]; apply Nat.ltb_ge in Hc; lia.
        -- intros (k' & [= <-] & Hk'). exists k. split; [done|]. lia.
      * intros [= <- <- _]. right; right. apply Nat.leb_gt in Hl.
        split; [done|]. split; [done|]. split; [lia|].
        intros (k' & [= <-] & Hk').
        destruct Hc as [Hc|Hc]; apply Nat.ltb_ge in Hc; lia.
  - destruct (4096 <=? length d)%nat eqn:Hl.
    + intros [= <- <- <-]. right; left. cbn [remaining fail_at option_map].
      apply Nat.leb_le in Hl.
      rewrite length_take. split; [done|]. split; [lia|].
      split; [symmetry; apply take_drop|].
      split; intros (k' & Hk' & _); discriminate.
    + intros [= <- <- _]. right; right. apply Nat.leb_gt in Hl.
      split; [done|]. split; [done|]. split; [lia|].
      intros (k' & Hk' & _); discriminate.
Qed.

Lemma readLoop_post {A} (upd : A -> list Byte.byte -> A) (f : CFile) (acc0 : A) :
  chunk_post upd f acc0 (readLoop (fun a b => inr (upd a b)) f acc0).
Proof.
  apply (readLoop_elim (fun a b => inr (upd a b)) (chunk_post upd)); clear f acc0;
    unfold chunk_post.
  - intros f buf E eof f' H acc IH _ _.
    apply Nat.eqb_eq in E.
    destruct (fread_spec _ _ _ _ H) as [(_ & Hn & _)|[(_ & _ & He & Hs)|(_ & _ & Hn & _)]];
      [lia| |lia].
    specialize (IH (upd acc buf)).
    destruct (readLoop _ f' (upd acc buf)) as [e|acc'].
    + destruct IH as [-> IH]. split; [done|]. by apply Hs.
    + destruct IH as (Hns & C & lst & Hc & Hf & Hl & ->). split; [by rewrite Hs|].
      exists (buf :: C), lst. rewrite He, <- Hc. simpl. split; [done|].
      split; [constructor; done|]. done.
  - intros f buf E eof f' H acc _ _.
    apply Nat.eqb_neq in E.
    destruct (fread_spec _ _ _ _ H) as [(-> & _ & Hs)|[(_ & Hn & _)|(-> & -> & Hl & Hs)]].
    + done.
    + done.
    + split; [done|]. exists [], (remaining f). simpl. rewrite app_nil_r. done.
Qed.

(** C7: reading a file whose stream opened, with the MD5 update [upd] as
    [chunkOp]: [processFile] fails with [ReadFailure] exactly when a short
    read that is not the end of the file occurs; any other failure is the
    final [fclose]; on success the content was fed to [upd] as full
    4096-byte chunks followed by one final chunk of fewer than 4096 bytes
    (possibly empty), read at the end of the file. *)
Theorem processFile_chunks {A} (upd : A -> list Byte.byte -> A) (f : CFile)
    (fcloseResult : option Z) (acc0 : A) (s : PState) :
  match fst (processFile (fun a b => inr (upd a b)) (inr f) fcloseResult acc0 s) with
  | inl (ReadFailure errno) => errno = EIO /\ short_read_error f
  | inl e => ~ short_read_error f /\ exists errno, e = CloseFailure errno
  | inr acc =>
      ~ short_read_error f /\
      exists (C : list (list Byte.byte)) (lst : list Byte.byte),
        concat (C ++ [lst]) = remaining f /\
        Forall (fun c => length c = 4096%nat) C /\ (length lst < 4096)%nat /\
        acc = upd (fold_left upd C acc0) lst
  end.
Proof.
  pose proof (readLoop_post upd f acc0) as Hp. unfold chunk_post in Hp.
  unfold processFile, openFile, fclose, catch, liftE, throw, modify,
    mbind, mret, M_bind, M_ret; cbn.
  destruct (readLoop _ f acc0) as [e|acc].
  - destruct Hp as [-> Hs]. destruct fcloseResult; cbn; auto.
  - destruct Hp as [Hns Hc]. destruct fcloseResult; cbn; eauto.
Qed.

(** C8: [processFile] releases the stream it opened before it returns, on
    every path: the number of open streams is the same as before the call
    whether [fopen] fails, a read fails, [chunkOp] throws, [fclose] fails
    or the file is read to its end. *)
Theorem processFile_releases {A} (chunkOp : A -> list Byte.byte -> Err + A)
    (fopenResult : Z + CFile) (fcloseResult : option Z) (acc0 : A) (s : PState) :
  openFiles (snd (processFile chunkOp fopenResult fcloseResult acc0 s)) = openFiles s.
Proof.
  unfold processFile, openFile. destruct fopenResult as [errno|f]; [done|].
  unfold fclose, catch, liftE, throw, modify, mbind, mret, M_bind, M_ret; cbn.
  destruct (readLoop chunkOp f acc0); destruct fcloseResult; cbn; lia.
Qed.




(** ** Further properties of the walk, the reader and [main] *)

(** [verifyDir] fails only when the walk fails, and then with the walk's
    error and state; after a successful walk it always succeeds: the final
    [assert(eventHandler.ctxs.empty())] never fires. *)
Lemma verifyDir_outcome_of_walk (db : FileDB) (root : node) :
  match scanFiles "" root (set_dbDirs (getDirs db) (init_state db)) with
  | (inl e, s) => run_verifyDir db root = (inl e, s)
  | (inr _, _) => fst (run_verifyDir db root) = inr tt
  end.
Proof.
  unfold run_verifyDir, verifyDir.
  rewrite (bind_step (modify (fun s => set_dbDirs (getDirs (dbRef s)) s)) _ (init_state db) tt
            (set_dbDirs (getDirs db) (init_state db)) eq_refl).
  destruct (scanFiles "" root (set_dbDirs (getDirs db) (init_state db))) as [[e|[]] s2] eqn:Hw.
  - unfold mbind at 1, M_bind at 1. rewrite Hw. reflexivity.
  - destruct (proj1 scan_ok _ _ _ _ Hw) as (Hc & _).
    rewrite (bind_step _ _ _ _ _ Hw).
    rewrite (bind_step get _ s2 s2 s2 eq_refl).
    rewrite (bind_step _ _ _ _ _ (mapM_logR DirNotFound _ _)).
    rewrite (bind_step get _ _ _ _ eq_refl). cbn. rewrite Hc. reflexivity.
Qed.

(** A root that cannot be opened for lack of access ([EACCES]) is skipped
    silently: the run succeeds and logs one [DirNotFound] for every recorded
    directory, the root's own path [""] included, and nothing else. *)
Lemma verifyDir_root_noaccess (db : FileDB) (cs : children) :
  fst (run_verifyDir db (Dir NoAccess cs)) = inr tt /\
  log (snd (run_verifyDir db (Dir NoAccess cs))) = map DirNotFound (elements (db_dirs db)).
Proof.
  unfold run_verifyDir, verifyDir.
  rewrite (bind_step (modify (fun s => set_dbDirs (getDirs (dbRef s)) s)) _ (init_state db) tt
            (set_dbDirs (getDirs db) (init_state db)) eq_refl).
  rewrite (bind_step (scanFiles "" (Dir NoAccess cs)) _ _ tt _ eq_refl).
  rewrite (bind_step get _ _ _ _ eq_refl).
  rewrite (bind_step _ _ _ _ _ (mapM_logR DirNotFound _ _)).
  rewrite (bind_step get _ _ _ _ eq_refl). cbn. split; reflexivity.
Qed.

(** After a completed [verifyDir] run, the log holds exactly one
    [DirNotFound p] for a path [p] that the database records as a directory
    and the walk did not enter, and none for any other path. *)
Lemma verifyDir_dirnotfound_count (db : FileDB) (root : node) (s' : VState) (p : string) :
  run_verifyDir db root = (inr tt, s') ->
  length (List.filter (is_dirnotfound p) (log s')) =
    if bool_decide (p ∈ db_dirs db /\ p ∉ entered "" root) then 1%nat else 0%nat.
Proof.
  intros H.
  destruct (run_ok _ _ _ H) as (Hd & out & Hl & Hf).
  rewrite Hl, List.filter_app, filter_false_all.
  2:{ eapply Forall_impl; [exact Hf|]. intros rep (d & Hd1 & _).
      destruct rep; try discriminate; reflexivity. }
  simpl. rewrite filter_dirnotfound_map, length_map.
  rewrite length_filter_eqb_NoDup by apply NoDup_elements.
  assert (Hiff : p ∈ elements (dbDirs s') <-> p ∈ db_dirs db /\ p ∉ entered "" root).
  { rewrite elem_of_elements, Hd, elem_of_difference, elem_of_list_to_set. reflexivity. }
  rewrite (bool_decide_ext _ _ Hiff). reflexivity.
Qed.

Lemma field_reports_same r n a : field_reports r n a a = [].
Proof.
  unfold field_reports. rewrite !Z.eqb_refl, bool_decide_true by reflexivity. reflexivity.
Qed.

Lemma child_lookup_in k cs x : child_lookup k cs = Some x -> k ∈ child_names cs.
Proof.
  induction cs as [|name nd rest IH]; simpl; [discriminate|].
  destruct (String.eqb_spec name k) as [->|Hne]; intros Hl.
  - apply elem_of_cons. left. reflexivity.
  - apply elem_of_cons. right. exact (IH Hl).
Qed.

Lemma entry_reports_exact r (T : DirFileMap) cs :
  wf_listing cs ->
  (forall k f, child_lookup k cs = Some (Reg f) -> exists a, f = inr a /\ T !! k = Some a) ->
  entry_reports r T cs = [].
Proof.
  induction cs as [|name n rest IH]; intros Hwf Hk; simpl; [reflexivity|].
  destruct (wf_listing_tail _ _ _ Hwf) as (Hwf' & Hnotin & _).
  assert (Hk' : forall k f, child_lookup k rest = Some (Reg f) ->
                 exists a, f = inr a /\ T !! k = Some a).
  { intros k f Hl. apply Hk. simpl.
    destruct (String.eqb_spec name k) as [->|_]; [|exact Hl].
    exfalso. apply Hnotin. exact (child_lookup_in _ _ _ Hl). }
  destruct n as [f| |]; try exact (IH Hwf' Hk').
  destruct (Hk name f) as (a & -> & Ha); [simpl; rewrite String.eqb_refl; reflexivity|].
  unfold file_reports. rewrite Ha, field_reports_same, IH by assumption. reflexivity.
Qed.

(** A directory whose live regular files are exactly the expected ones,
    each with its recorded size, timestamp and digest, yields no report
    about the files of that directory. *)
Lemma verify_exact_match_no_reports (r : string) (cs : children) (s s' : VState) :
  wf_listing cs ->
  (forall k f, child_lookup k cs = Some (Reg f) ->
     exists a, f = inr a /\ getFiles (dbRef s) r !! k = Some a) ->
  (forall k, k ∉ reg_names cs -> getFiles (dbRef s) r !! k = None) ->
  scanFiles r (Dir Opened cs) s = (inr tt, s') ->
  exists out, log s' = log s ++ out /\ List.filter (at_dir r) out = [].
Proof.
  intros Hwf Hrec Hdom H.
  destruct (dir_reports _ _ _ _ Hwf H) as (T' & out & Hl & HT' & Hf).
  exists out. split; [exact Hl|]. rewrite Hf.
  assert (HT : T' = ∅).
  { apply map_eq. intros k. rewrite HT', lookup_empty.
    destruct (bool_decide (k ∈ reg_names cs)) eqn:Hb; [reflexivity|].
    apply bool_decide_eq_false in Hb. exact (Hdom k Hb). }
  rewrite HT, map_to_list_empty, entry_reports_exact by assumption. reflexivity.
Qed.

Lemma filter_eqb_NoDup (l : list string) n :
  NoDup l -> List.filter (fun k => String.eqb k n) l = if bool_decide (n ∈ l) then [n] else [].
Proof.
  induction 1 as [|k l Hk Hnd IH]; simpl; [reflexivity|].
  destruct (String.eqb_spec k n) as [->|Hne]; simpl.
  - rewrite IH, bool_decide_false by exact Hk.
    rewrite bool_decide_true by (apply elem_of_cons; left; reflexivity). reflexivity.
  - rewrite IH. destruct (bool_decide (n ∈ l)) eqn:Hb.
    + apply bool_decide_eq_true in Hb.
      rewrite bool_decide_true by (apply elem_of_cons; right; exact Hb). reflexivity.
    + apply bool_decide_eq_false in Hb.
      rewrite bool_decide_false; [reflexivity|].
      intros Hin. apply elem_of_cons in Hin as [|]; [congruence | contradiction].
Qed.

Lemma filter_about_notfound_map r n (T' : DirFileMap) :
  List.filter (about r n)
    (map (fun kv : string * FileRecord => FileNotFound r kv.1) (map_to_list T')) =
  match T' !! n with Some _ => [FileNotFound r n] | None => [] end.
Proof.
  assert (Hm : forall l : list (string * FileRecord),
    List.filter (about r n) (map (fun kv : string * FileRecord => FileNotFound r kv.1) l) =
    map (FileNotFound r) (List.filter (fun k => String.eqb k n) l.*1)).
  { induction l as [|kv l IH]; simpl; [reflexivity|]. unfold about at 1. simpl.
    rewrite String.eqb_refl. simpl.
    destruct (String.eqb kv.1 n); simpl; rewrite IH; reflexivity. }
  rewrite Hm, filter_eqb_NoDup by apply NoDup_fst_map_to_list.
  destruct (T' !! n) as [x|] eqn:Hx.
  - rewrite bool_decide_true; [reflexivity|].
    apply list_elem_of_fmap. exists (n, x). split; [reflexivity|].
    apply elem_of_map_to_list. exact Hx.
  - rewrite bool_decide_false; [reflexivity|].
    intros Hin. apply list_elem_of_fmap in Hin as ([k y] & Hk & Hin). simpl in Hk. subst k.
    apply elem_of_map_to_list in Hin. congruence.
Qed.

Lemma entry_reports_about_notreg r n T cs :
  n ∉ reg_names cs -> List.filter (about r n) (entry_reports r T cs) = [].
Proof.
  induction cs as [|name nd rest IH]; simpl; intros Hn; [reflexivity|].
  destruct nd as [f| |]; try exact (IH Hn).
  rewrite List.filter_app, filter_about_file_reports.
  destruct (String.eqb_spec name n) as [->|_].
  - exfalso. apply Hn, elem_of_cons. left. reflexivity.
  - rewrite IH; [reflexivity|]. intros Hin. apply Hn, elem_of_cons. right. exact Hin.
Qed.

Lemma reg_names_lookup n cs :
  wf_listing cs -> n ∈ reg_names cs -> exists f, child_lookup n cs = Some (Reg f).
Proof.
  induction cs as [|name nd rest IH]; simpl; intros Hwf Hn; [apply elem_of_nil in Hn as []|].
  destruct (wf_listing_tail _ _ _ Hwf) as (Hwf' & Hnotin & _).
  destruct (String.eqb_spec name n) as [->|Hne].
  - destruct nd as [f| |]; [eauto| |]; exfalso; apply Hnotin, reg_names_child, Hn.
  - apply IH; [exact Hwf'|]. destruct nd; try exact Hn.
    apply elem_of_cons in Hn as [->|Hn]; [congruence|exact Hn].
Qed.

(** For a name [n] of an entered directory, the reports about [n] are:
    one [NewFileFound] when [n] is a live regular file with no expected
    record; the field mismatches when it has one; one [FileNotFound] when
    [n] is expected but is not a live regular file; none otherwise. *)
Lemma verify_name_reports (r : string) (cs : children) (s s' : VState) (n : string) :
  wf_listing cs ->
  scanFiles r (Dir Opened cs) s = (inr tt, s') ->
  exists out, log s' = log s ++ out /\
    List.filter (about r n) out =
      match child_lookup n cs with
      | Some (Reg f) =>
          match getFiles (dbRef s) r !! n with
          | None => [NewFileFound r n]
          | Some e => match f with inr a => field_reports r n e a | inl _ => [] end
          end
      | _ =>
          match getFiles (dbRef s) r !! n with
          | Some _ => [FileNotFound r n]
          | None => []
          end
      end.
Proof.
  intros Hwf H.
  destruct (dir_reports _ _ _ _ Hwf H) as (T' & out & Hl & HT' & Hf).
  exists out. split; [exact Hl|].
  rewrite (filter_through_at_dir (about r n) r).
  2:{ intros rep. unfold about, at_dir.
      destruct (file_dir rep), (file_name rep); try discriminate.
      intros Hb. apply andb_true_iff in Hb as [Hb _]. exact Hb. }
  rewrite Hf, List.filter_app, filter_about_notfound_map, HT'.
  destruct (child_lookup n cs) as [[f| |]|] eqn:Hc.
  - rewrite (entry_reports_about _ _ _ _ _ Hwf Hc).
    rewrite bool_decide_true by exact (child_lookup_reg _ _ _ Hc).
    rewrite app_nil_r. reflexivity.
  - assert (Hn : n ∉ reg_names cs).
    { intros Hin. destruct (reg_names_lookup _ _ Hwf Hin) as [f Hf']. congruence. }
    rewrite entry_reports_about_notreg, bool_decide_false by exact Hn. reflexivity.
  - assert (Hn : n ∉ reg_names cs).
    { intros Hin. destruct (reg_names_lookup _ _ Hwf Hin) as [f Hf']. congruence. }
    rewrite entry_reports_about_notreg, bool_decide_false by exact Hn. reflexivity.
  - assert (Hn : n ∉ reg_names cs).
    { intros Hin. destruct (reg_names_lookup _ _ Hwf Hin) as [f Hf']. congruence. }
    rewrite entry_reports_about_notreg, bool_decide_false by exact Hn. reflexivity.
Qed.

Lemma fold_left_snoc {B} (C : list B) (a0 : list B) :
  fold_left (fun acc b => acc ++ [b]) C a0 = a0 ++ C.
Proof.
  revert a0. induction C as [|c C IH]; intros a0; simpl; [by rewrite app_nil_r|].
  rewrite IH, <- app_assoc. reflexivity.
Qed.

Lemma processFile_fst_ok {A} (chunkOp : A -> list Byte.byte -> Err + A) (f : CFile)
    (acc0 : A) (s : PState) :
  fst (processFile chunkOp (inr f) None acc0 s) = readLoop chunkOp f acc0.
Proof.
  unfold processFile, openFile.
  destruct (readLoop chunkOp f acc0) as [e|a] eqn:Hr;
    unfold fclose, catch, liftE, throw, modify, mbind, mret, M_bind, M_ret;
    rewrite Hr; reflexivity.
Qed.

Lemma chunk_lengths (k : nat) (C : list (list Byte.byte)) (lst data : list Byte.byte) :
  concat (C ++ [lst]) = data ->
  Forall (fun c => length c = k) C -> (length lst < k)%nat ->
  map length (C ++ [lst]) = repeat k (length data / k) ++ [(length data mod k)%nat].
Proof.
  intros Hc Hf Hl.
  assert (HL : length data = (k * length C + length lst)%nat).
  { rewrite <- Hc, concat_app, length_app. simpl. rewrite app_nil_r.
    clear Hc. induction Hf as [|c C Hc' Hf IH]; simpl; [lia|].
    rewrite length_app. lia. }
  assert (Hd : (length data / k = length C)%nat).
  { rewrite HL. symmetry. apply (Nat.div_unique _ _ _ (length lst)); lia. }
  assert (Hm : (length data mod k = length lst)%nat).
  { rewrite HL. symmetry. apply (Nat.mod_unique _ _ (length C)); lia. }
  rewrite Hd, Hm, map_app. simpl. f_equal.
  clear Hc HL Hd Hm. induction Hf as [|c C Hc' Hf IH]; simpl; [reflexivity|].
  rewrite Hc', IH. reflexivity.
Qed.

(** Reading a file without errors hands [chunkOp] full 4096-byte chunks
    and then one final chunk of [size mod 4096] bytes (empty when the size
    is a multiple of 4096); the chunks concatenate to the file's content. *)
Lemma processFile_chunk_sizes (data : list Byte.byte) (s : PState) :
  match fst (processFile (fun (acc : list (list Byte.byte)) b => inr (acc ++ [b]))
                         (inr (mkCFile data None)) None [] s) with
  | inr C =>
      concat C = data /\
      map length C = repeat 4096%nat (length data / 4096) ++ [(length data mod 4096)%nat]
  | inl _ => False
  end.
Proof.
  rewrite processFile_fst_ok.
  pose proof (readLoop_post (fun (acc : list (list Byte.byte)) b => acc ++ [b])
                (mkCFile data None) []) as Hp.
  unfold chunk_post in Hp.
  destruct (readLoop _ (mkCFile data None) []) as [e|acc].
  - destruct Hp as [_ (k & Hk & _)]. discriminate.
  - destruct Hp as (_ & C & lst & Hc & Hf & Hl & ->).
    rewrite fold_left_snoc, app_nil_l. cbn [remaining] in Hc. split; [exact Hc|].
    exact (chunk_lengths 4096 C lst data Hc Hf Hl).
Qed.

(** When [fclose] fails, a read loop that raised still propagates its own
    error and one close error is logged; a read loop that succeeded has
    its result replaced by the close failure ([throw errno]). The stream
    count is restored in both cases. *)
Lemma processFile_close_failure_precedence {A} (chunkOp : A -> list Byte.byte -> Err + A) (f : CFile) (errno : Z)
    (acc0 : A) (s : PState) :
  processFile chunkOp (inr f) (Some errno) acc0 s =
    match readLoop chunkOp f acc0 with
    | inl e => (inl e, mkPState (openFiles s) (S (closeErrorsLogged s)))
    | inr _ => (inl (CloseFailure errno), s)
    end.
Proof.
  unfold processFile, openFile.
  destruct (readLoop chunkOp f acc0) as [e|a] eqn:Hr;
    unfold fclose, catch, liftE, throw, modify, mbind, mret, M_bind, M_ret;
    rewrite Hr; destruct s as [o c]; cbn;
    replace (o + 1 - 1) with o by lia; reflexivity.
Qed.

(** [checkFileMismatch] reports a full match exactly when the types agree
    and either both are directories or size, timestamp and digest are all
    equal. *)
Lemma checkFileMismatch_fullMatch_iff (path : string) (e a : FileRecord) :
  fst (checkFileMismatch path e a) = true <->
  type e = type a /\
  (type a = directory \/
   (fileSize e = fileSize a /\ lastModifiedMillis e = lastModifiedMillis a /\
    md5Digest e = md5Digest a)).
Proof.
  unfold checkFileMismatch.
  case_bool_decide as Ht.
  - cbn. split; [discriminate|]. intros [H _]. contradiction.
  - assert (Ht' : type e = type a) by (destruct (decide (type e = type a)); tauto).
    case_bool_decide as Hf.
    + cbn. destruct (Z.eqb_spec (fileSize e) (fileSize a));
        destruct (Z.eqb_spec (lastModifiedMillis e) (lastModifiedMillis a));
        case_bool_decide; cbn; split; intros; intuition (try congruence).
    + cbn. split; [|done]. intros _. split; [exact Ht'|]. left.
      destruct (type a); [contradiction|reflexivity].
Qed.

(** [checkFileMismatch] logs nothing exactly when it returns [true]: every
    mismatch it finds is logged. *)
Lemma checkFileMismatch_logs_iff_mismatch (path : string) (e a : FileRecord) :
  snd (checkFileMismatch path e a) = [] <-> fst (checkFileMismatch path e a) = true.
Proof.
  unfold checkFileMismatch.
  destruct (bool_decide (type e <> type a)); cbn; [split; discriminate|].
  destruct (bool_decide (type a = file)); cbn; [|tauto].
  destruct (negb _ && negb _ && negb _); cbn; split; try discriminate; reflexivity.
Qed.

Lemma parseOptions_app pre post o :
  Forall (fun r => continues r = true) pre ->
  exists o', parseOptions (pre ++ post) o = parseOptions post o'.
Proof.
  revert o. induction pre as [|r pre IH]; intros o Hf; simpl; [eauto|].
  apply Forall_cons in Hf as [Hr Hf].
  destruct r as [p| |a| | |c]; try discriminate; simpl; [apply IH, Hf|].
  simpl in Hr.
  destruct (String.eqb a "create-db"); [apply IH, Hf|].
  destruct (String.eqb a "verify-dir"); [apply IH, Hf|].
  destruct (String.eqb a "merge-dir"); [apply IH, Hf|discriminate].
Qed.

(** The first option after which the option loop of [main] does not go
    on decides the exit status: [0] for [--help]/[-h] and [--version], [1]
    for an unknown tool name, an unknown option or any other [getopt_long]
    result, whatever follows it and whatever the operands are. *)
Lemma main_first_stop_option_status (pre post : list GetoptResult) (stop : GetoptResult) (optind argc : Z)
    (dbOpen : OpenOutcome) (createRun verifyRun : Raised + unit) (dbClose : CloseOutcome) :
  Forall (fun r => continues r = true) pre ->
  continues stop = false ->
  main_run (pre ++ stop :: post) optind argc dbOpen createRun verifyRun dbClose =
    ExitStatus (match stop with GoHelp | GoVersion => 0 | _ => 1 end).
Proof.
  intros Hpre Hstop. unfold main_run.
  destruct (parseOptions_app pre (stop :: post) main_opts0 Hpre) as [o' ->].
  destruct stop as [p| |a| | |c]; try reflexivity; simpl in Hstop |- *; [discriminate|].
  destruct (String.eqb a "create-db"); [discriminate|].
  destruct (String.eqb a "verify-dir"); [discriminate|].
  destruct (String.eqb a "merge-dir"); [discriminate|reflexivity].
Qed.

Lemma parseOptions_defined rs o o' :
  parseOptions rs o = inr o' ->
  (dbDefined o' = true -> dbDefined o = true \/ exists p, In (GoDb p) rs) /\
  (toolDefined o' = true -> toolDefined o = true \/ exists a, In (GoTool a) rs).
Proof.
  revert o. induction rs as [|r rs IH]; intros o H; simpl in H.
  - injection H as <-. split; auto.
  - destruct r as [p| |a| | |c]; try discriminate.
    + destruct (IH _ H) as [H1 H2]. simpl in *. split.
      * intros _. right. exists p. left. reflexivity.
      * intros Ht. destruct (H2 Ht) as [Ht'|(a & Ha)]; [left; exact Ht'|].
        right. exists a. right. exact Ha.
    + assert (Hx : exists o1, parseOptions rs o1 = inr o' /\ dbDefined o1 = dbDefined o).
      { destruct (String.eqb a "create-db"); [eexists; split; [exact H|reflexivity]|].
        destruct (String.eqb a "verify-dir"); [eexists; split; [exact H|reflexivity]|].
        destruct (String.eqb a "merge-dir"); [eexists; split; [exact H|reflexivity]|discriminate]. }
      destruct Hx as (o1 & H1 & Hd).
      destruct (IH _ H1) as [Hd1 _]. simpl. split.
      * intros Hd'. destruct (Hd1 Hd') as [Hd2|(p & Hp)]; [left; congruence|].
        right. exists p. right. exact Hp.
      * intros _. right. exists a. left. reflexivity.
Qed.

Lemma parseOptions_continue pre post o :
  Forall (fun r => continues r = true) pre ->
  exists o', parseOptions (pre ++ post) o = parseOptions post o' /\
    (dbDefined o' = true <-> dbDefined o = true \/ exists p, In (GoDb p) pre) /\
    (toolDefined o' = true <-> toolDefined o = true \/ exists a, In (GoTool a) pre).
Proof.
  revert o. induction pre as [|r pre IH]; intros o Hf; simpl.
  - exists o. split; [reflexivity|]. split; split; auto; intros [H|(x & [])]; exact H.
  - apply Forall_cons in Hf as [Hr Hf].
    destruct r as [p| |a| | |c]; try discriminate.
    + destruct (IH (mkMainOpts (opt_t o) (toolDefined o) p true) Hf) as (o' & Ho & Hd & Ht).
      exists o'. split; [exact Ho|]. simpl in Hd, Ht. split.
      * split; [intros _; right; exists p; left; reflexivity|]. intros _. apply Hd. left. reflexivity.
      * rewrite Ht. split.
        -- intros [H|(a & Ha)]; [left; exact H|right; exists a; right; exact Ha].
        -- intros [H|(a & [Ha|Ha])]; [left; exact H|discriminate|right; exists a; exact Ha].
    + simpl in Hr.
      assert (Hx : exists t, parseOptions ((GoTool a :: pre) ++ post) o =
                   parseOptions (pre ++ post) (mkMainOpts t true (dbPath o) (dbDefined o))).
      { simpl. destruct (String.eqb a "create-db"); [eexists; reflexivity|].
        destruct (String.eqb a "verify-dir"); [eexists; reflexivity|].
        destruct (String.eqb a "merge-dir"); [eexists; reflexivity|discriminate]. }
      destruct Hx as [t Hx]. simpl in Hx. rewrite Hx.
      destruct (IH (mkMainOpts t true (dbPath o) (dbDefined o)) Hf) as (o' & Ho & Hd & Ht).
      exists o'. split; [exact Ho|]. simpl in Hd, Ht. split.
      * rewrite Hd. split.
        -- intros [H|(p & Hp)]; [left; exact H|right; exists p; right; exact Hp].
        -- intros [H|(p & [Hp|Hp])]; [left; exact H|discriminate|right; exists p; exact Hp].
      * split; [intros _; right; exists a; left; reflexivity|]. intros _. apply Ht. left. reflexivity.
Qed.

(** When the option loop completes, a missing [--db], a missing [--tool],
    no operand, or more than two operands make [main] exit with status 1,
    before the store is opened. *)
Lemma main_missing_args_exit_one (rs : list GetoptResult) (optind argc : Z) (dbOpen : OpenOutcome)
    (createRun verifyRun : Raised + unit) (dbClose : CloseOutcome) :
  Forall (fun r => continues r = true) rs ->
  (~ exists p, In (GoDb p) rs) \/ (~ exists a, In (GoTool a) rs) \/
  optind = argc \/ optind < argc - 2 ->
  main_run rs optind argc dbOpen createRun verifyRun dbClose = ExitStatus 1.
Proof.
  intros Hf Hc. unfold main_run.
  destruct (parseOptions_continue rs [] main_opts0 Hf) as (o & Ho & Hd & Ht).
  rewrite app_nil_r in Ho. rewrite Ho. simpl.
  destruct (Z.eqb_spec optind argc) as [|Hne]; [reflexivity|].
  destruct (Z.ltb_spec optind (argc - 2)) as [|Hge]; [reflexivity|].
  destruct (_ && _); [reflexivity|].
  destruct (toolDefined o) eqn:Hto; [|reflexivity].
  destruct (dbDefined o) eqn:Hdo; [|reflexivity].
  exfalso. destruct Hc as [Hc|[Hc|[Hc|Hc]]]; [| |contradiction|lia].
  - destruct (proj1 Hd eq_refl) as [H|H]; [discriminate|exact (Hc H)].
  - destruct (proj1 Ht eq_refl) as [H|H]; [discriminate|exact (Hc H)].
Qed.

Lemma parseOptions_dbs post o :
  Forall (fun r => exists p, r = GoDb p) post ->
  exists o', parseOptions post o = inr o' /\ opt_t o' = opt_t o /\
    toolDefined o' = toolDefined o /\
    (dbDefined o' = true <-> dbDefined o = true \/ post <> []).
Proof.
  revert o. induction post as [|r post IH]; intros o Hf; simpl.
  - exists o. repeat split; auto. intros [H|H]; [exact H|congruence].
  - apply Forall_cons in Hf as [(p & ->) Hf].
    destruct (IH (mkMainOpts (opt_t o) (toolDefined o) p true) Hf) as (o' & Ho & H1 & H2 & H3).
    exists o'. simpl in *. split; [exact Ho|]. split; [exact H1|]. split; [exact H2|].
    split; [intros _; right; discriminate|]. intros _. apply H3. left. reflexivity.
Qed.

(** With [merge-dir] as the tool and a [--db] given, two operands are
    rejected with status 1 by the [optind < argc - 1] check, while a single
    operand passes every check and reaches [assert(false)], which
    terminates the program. *)
Lemma main_merge_dir_operands (pre post : list GetoptResult) (argc : Z) (createRun verifyRun : Raised + unit)
    (dbClose : CloseOutcome) :
  Forall (fun r => continues r = true) pre ->
  Forall (fun r => exists p, r = GoDb p) post ->
  (exists p, In (GoDb p) (pre ++ post)) ->
  main_run (pre ++ GoTool "merge-dir" :: post) (argc - 2) argc None createRun verifyRun dbClose
    = ExitStatus 1 /\
  main_run (pre ++ GoTool "merge-dir" :: post) (argc - 1) argc None createRun verifyRun dbClose
    = Terminated.
Proof.
  intros Hpre Hpost Hdb. unfold main_run.
  destruct (parseOptions_continue pre (GoTool "merge-dir" :: post) main_opts0 Hpre)
    as (o & -> & Hd & _).
  simpl.
  destruct (parseOptions_dbs post (mkMainOpts tool.mergeDir true (dbPath o) (dbDefined o)) Hpost)
    as (o' & -> & Ht & Htd & Hd').
  simpl in Ht, Htd, Hd'. rewrite Ht, Htd.
  assert (Hdb' : dbDefined o' = true).
  { apply Hd'. destruct Hdb as (p & Hp). apply in_app_or in Hp as [Hp|Hp].
    - left. apply Hd. right. exists p. exact Hp.
    - right. intros ->. exact Hp. }
  rewrite Hdb'. split.
  - destruct (Z.eqb_spec (argc - 2) argc) as [?|?]; [lia|].
    destruct (Z.ltb_spec (argc - 2) (argc - 2)) as [?|?]; [lia|].
    destruct (Z.ltb_spec (argc - 2) (argc - 1)) as [?|?]; [reflexivity|lia].
  - destruct (Z.eqb_spec (argc - 1) argc) as [?|?]; [lia|].
    destruct (Z.ltb_spec (argc - 1) (argc - 2)) as [?|?]; [lia|].
    destruct (Z.ltb_spec (argc - 1) (argc - 1)) as [?|?]; [lia|]. reflexivity.
Qed.

Lemma parseOptions_stop rs o status :
  parseOptions rs o = inl status ->
  exists pre stop post, rs = pre ++ stop :: post /\
    Forall (fun r => continues r = true) pre /\ continues stop = false /\
    status = match stop with GoHelp | GoVersion => 0 | _ => 1 end.
Proof.
  revert o. induction rs as [|r rs IH]; intros o H; simpl in H; [discriminate|].
  assert (Hstop : continues r = false ->
    exists pre stop post, r :: rs = pre ++ stop :: post /\
      Forall (fun r => continues r = true) pre /\ continues stop = false /\
      status = match stop with GoHelp | GoVersion => 0 | _ => 1 end).
  { intros Hr. exists [], r, rs. split; [reflexivity|]. split; [constructor|].
    split; [exact Hr|].
    destruct r as [p| |a| | |c]; simpl in Hr; try discriminate; try congruence.
    destruct (String.eqb a "create-db"); [discriminate|].
    destruct (String.eqb a "verify-dir"); [discriminate|].
    destruct (String.eqb a "merge-dir"); [discriminate|congruence]. }
  assert (Hgo : forall o1, continues r = true -> parseOptions rs o1 = inl status ->
    exists pre stop post, r :: rs = pre ++ stop :: post /\
      Forall (fun r => continues r = true) pre /\ continues stop = false /\
      status = match stop with GoHelp | GoVersion => 0 | _ => 1 end).
  { intros o1 Hr H1. destruct (IH o1 H1) as (pre & stop & post & -> & Hf & Hs & Hst).
    exists (r :: pre), stop, post. split; [reflexivity|]. split; [constructor; assumption|].
    split; assumption. }
  destruct r as [p| |a| | |c]; try (apply Hstop; reflexivity).
  - exact (Hgo _ eq_refl H).
  - simpl in Hstop, Hgo.
    destruct (String.eqb a "create-db"); [exact (Hgo _ eq_refl H)|].
    destruct (String.eqb a "verify-dir"); [exact (Hgo _ eq_refl H)|].
    destruct (String.eqb a "merge-dir"); [exact (Hgo _ eq_refl H)|].
    apply Hstop; reflexivity.
Qed.

Lemma main_tail_zero t createRun verifyRun dbClose :
  main_tail t createRun verifyRun dbClose = ExitStatus 0 ->
  dbClose = None /\
  ((t = tool.createDB /\ createRun = inr tt) \/ (t = tool.verifyDir /\ verifyRun = inr tt)).
Proof.
  unfold main_tail.
  destruct t; [discriminate| | |discriminate];
    [destruct createRun as [[[]|]|[]]|destruct verifyRun as [[[]|]|[]]];
    destruct dbClose as [[]|]; cbn; try discriminate; auto.
Qed.

(** [main] exits with status 0 only when the option loop stops at
    [--help] or [--version], or when the store opens, the tool is
    [create-db] or [verify-dir], its run completes and the store closes
    without error. *)
Lemma main_exit_zero_only_if_success (rs : list GetoptResult) (optind argc : Z) (dbOpen : OpenOutcome)
    (createRun verifyRun : Raised + unit) (dbClose : CloseOutcome) :
  main_run rs optind argc dbOpen createRun verifyRun dbClose = ExitStatus 0 ->
  (exists pre post, Forall (fun r => continues r = true) pre /\
     (rs = pre ++ GoHelp :: post \/ rs = pre ++ GoVersion :: post)) \/
  (exists o, parseOptions rs main_opts0 = inr o /\ dbOpen = None /\ dbClose = None /\
     ((opt_t o = tool.createDB /\ createRun = inr tt) \/
      (opt_t o = tool.verifyDir /\ verifyRun = inr tt))).
Proof.
  unfold main_run. destruct (parseOptions rs main_opts0) as [st|o] eqn:Hp.
  - intros Hst. injection Hst as ->. left.
    destruct (parseOptions_stop _ _ _ Hp) as (pre & stop & post & -> & Hf & _ & Hs).
    exists pre, post. split; [exact Hf|].
    destruct stop; try discriminate; auto.
  - intros H. right. exists o. split; [reflexivity|].
    destruct (optind =? argc); [discriminate|].
    destruct (optind <? argc - 2); [discriminate|].
    destruct (_ && _); [discriminate|].
    destruct (toolDefined o); [|discriminate].
    destruct (dbDefined o); [|discriminate]. cbn in H.
    destruct dbOpen as [[]|]; [discriminate|discriminate|discriminate|].
    split; [reflexivity|]. exact (main_tail_zero _ _ _ _ H).
Qed.

(** A root that fails to open with an errno other than [EACCES], or that
    is not a directory ([ENOTDIR]), aborts [verifyDir] with
    [DirOpenFailure] before any report is logged and before any
    directory is entered. *)
Lemma verifyDir_root_open_failure (db : FileDB) :
  (forall (e : Z) (cs : children), run_verifyDir db (Dir (OpenError e) cs) =
     (inl (DirOpenFailure e), set_dbDirs (getDirs db) (init_state db))) /\
  (forall f, run_verifyDir db (Reg f) =
     (inl (DirOpenFailure ENOTDIR), set_dbDirs (getDirs db) (init_state db))) /\
  run_verifyDir db Other = (inl (DirOpenFailure ENOTDIR), set_dbDirs (getDirs db) (init_state db)).
Proof.
  split; [intros e cs|split; [intros f|]]; reflexivity.
Qed.

(** ** Witnesses of the further properties *)

Lemma verifyDir_dirnotfound_count_witness :
  run_verifyDir db_noacc root_noacc = (inr tt, snd (run_verifyDir db_noacc root_noacc)) /\
  length (List.filter (is_dirnotfound "a") (log (snd (run_verifyDir db_noacc root_noacc)))) =
    if bool_decide ("a" ∈ db_dirs db_noacc /\ "a" ∉ entered "" root_noacc) then 1%nat else 0%nat.
Proof.
  assert (H : run_verifyDir db_noacc root_noacc = (inr tt, snd (run_verifyDir db_noacc root_noacc)))
    by (vm_compute; reflexivity).
  split; [exact H|].
  apply (verifyDir_dirnotfound_count db_noacc root_noacc _ "a" H).
Defined.

Lemma verify_exact_match_no_reports_witness :
  scanFiles "" (Dir Opened listing_a) state_exact =
    (inr tt, snd (scanFiles "" (Dir Opened listing_a) state_exact)) /\
  exists out, log (snd (scanFiles "" (Dir Opened listing_a) state_exact)) = log state_exact ++ out /\
    List.filter (at_dir "") out = [].
Proof.
  assert (H : scanFiles "" (Dir Opened listing_a) state_exact =
                (inr tt, snd (scanFiles "" (Dir Opened listing_a) state_exact)))
    by (vm_compute; reflexivity).
  split; [exact H|].
  apply (verify_exact_match_no_reports "" listing_a state_exact _).
  - split; apply (bool_decide_unpack _); vm_compute; reflexivity.
  - intros k f Hk. cbn [child_lookup listing_a] in Hk.
    destruct (String.eqb_spec "a.txt" k) as [<-|]; [|discriminate].
    injection Hk as <-. exists rec_fs. split; [reflexivity|]. vm_compute. reflexivity.
  - intros k Hk.
    assert (Hne : k <> "a.txt") by (intros ->; apply Hk; left).
    change (getFiles (dbRef state_exact) "") with ({[ "a.txt" := rec_fs ]} : DirFileMap).
    apply lookup_singleton_ne. congruence.
  - exact H.
Defined.

Lemma verify_name_reports_witness :
  scanFiles "" (Dir Opened listing_a) state_a =
    (inr tt, snd (scanFiles "" (Dir Opened listing_a) state_a)) /\
  exists out, log (snd (scanFiles "" (Dir Opened listing_a) state_a)) = log state_a ++ out /\
    List.filter (about "" "a.txt") out =
      match child_lookup "a.txt" listing_a with
      | Some (Reg f) =>
          match getFiles (dbRef state_a) "" !! "a.txt" with
          | None => [NewFileFound "" "a.txt"]
          | Some e => match f with inr a => field_reports "" "a.txt" e a | inl _ => [] end
          end
      | _ =>
          match getFiles (dbRef state_a) "" !! "a.txt" with
          | Some _ => [FileNotFound "" "a.txt"]
          | None => []
          end
      end.
Proof.
  assert (H : scanFiles "" (Dir Opened listing_a) state_a =
                (inr tt, snd (scanFiles "" (Dir Opened listing_a) state_a)))
    by (vm_compute; reflexivity).
  split; [exact H|].
  apply (verify_name_reports "" listing_a state_a _ "a.txt").
  - split; apply (bool_decide_unpack _); vm_compute; reflexivity.
  - exact H.
Defined.

Lemma main_first_stop_option_status_witness :
  Forall (fun r => continues r = true) [GoDb "files.db"] /\
  continues (GoTool "copy") = false /\
  main_run ([GoDb "files.db"] ++ GoTool "copy" :: [GoTool "verify-dir"]) 1 2 None
    (inr tt) (inr tt) None = ExitStatus 1.
Proof.
  assert (Hf : Forall (fun r => continues r = true) [GoDb "files.db"]) by (repeat constructor).
  assert (Hs : continues (GoTool "copy") = false) by reflexivity.
  split; [exact Hf|]. split; [exact Hs|].
  apply (main_first_stop_option_status [GoDb "files.db"] [GoTool "verify-dir"] (GoTool "copy")
           1 2 None (inr tt) (inr tt) None Hf Hs).
Defined.

Lemma main_missing_args_exit_one_witness :
  Forall (fun r => continues r = true) [GoTool "verify-dir"] /\
  main_run [GoTool "verify-dir"] 1 2 None (inr tt) (inr tt) None = ExitStatus 1.
Proof.
  assert (Hf : Forall (fun r => continues r = true) [GoTool "verify-dir"])
    by (repeat constructor).
  split; [exact Hf|].
  apply (main_missing_args_exit_one [GoTool "verify-dir"] 1 2 None (inr tt) (inr tt) None Hf).
  left. intros (p & [Hp|[]]). discriminate.
Defined.

Lemma main_merge_dir_operands_witness :
  main_run ([GoDb "files.db"] ++ GoTool "merge-dir" :: []) (3 - 2) 3 None (inr tt) (inr tt) None
    = ExitStatus 1 /\
  main_run ([GoDb "files.db"] ++ GoTool "merge-dir" :: []) (3 - 1) 3 None (inr tt) (inr tt) None
    = Terminated.
Proof.
  apply (main_merge_dir_operands [GoDb "files.db"] [] 3 (inr tt) (inr tt) None).
  - repeat constructor.
  - constructor.
  - exists "files.db". left. reflexivity.
Defined.

Lemma main_exit_zero_only_if_success_witness :
  main_run [GoTool "verify-dir"; GoDb "files.db"] 1 2 None (inl Abort) (inr tt) None
    = ExitStatus 0 /\
  ((exists pre post, Forall (fun r => continues r = true) pre /\
     ([GoTool "verify-dir"; GoDb "files.db"] = pre ++ GoHelp :: post \/
      [GoTool "verify-dir"; GoDb "files.db"] = pre ++ GoVersion :: post)) \/
   (exists o, parseOptions [GoTool "verify-dir"; GoDb "files.db"] main_opts0 = inr o /\
      @None Exn = None /\ @None Exn = None /\
      ((opt_t o = tool.createDB /\ @inl Raised unit Abort = inr tt) \/
       (opt_t o = tool.verifyDir /\ @inr Raised unit tt = inr tt)))).
Proof.
  assert (H : main_run [GoTool "verify-dir"; GoDb "files.db"] 1 2 None (inl Abort) (inr tt) None
                = ExitStatus 0) by reflexivity.
  split; [exact H|].
  exact (main_exit_zero_only_if_success _ _ _ _ _ _ _ H).
Defined.
